(** * kraksat-receiver: the request queue and the output parser

    A shallow embedding of [app/sender/__init__.py] and
    [app/parser/outputparser.py].  Python objects that are shared and mutated
    (the POST data dictionaries) live in a heap of dictionaries addressed by
    reference; every method is a computation over the state of its object that
    also produces the trace of what it does to the outside (observer hooks,
    API calls, log records, lock operations).  What other threads and the
    outside world do while a method runs is given to it as a script. *)

From stdpp Require Import base gmap strings list.

(** ** Python values, exceptions and computations *)

Module Py.

(** A [datetime] is a reading of the clock. *)
Definition datetime := Z.

Inductive value :=
| VNone
| VBool (b : bool)
| VInt (z : Z)
| VStr (s : string)
| VDatetime (t : datetime).

(** Truth value testing, as done by [if v:]. *)
Definition truthy (v : value) : bool :=
  match v with
  | VNone => false
  | VBool b => b
  | VInt z => negb (Z.eqb z 0)
  | VStr s => negb (String.eqb s "")
  | VDatetime _ => true
  end.

(** Identity of a dictionary object; two names alias when they hold the same
    [ref]. *)
Definition ref := positive.

Abbreviation dict := (gmap string value).
Abbreviation heap := (gmap ref dict).

(** [d[k] = v] on the dictionary object [r]. *)
Definition setitem (r : ref) (k : string) (v : value) (h : heap) : heap :=
  alter (insert k v) r h.

(** [if d:] for [d] a dictionary object or [None]: [None] and the empty
    dictionary are false. *)
Definition truthy_dict (h : heap) (d : option ref) : bool :=
  match d with
  | None => false
  | Some r =>
      match h !! r with
      | Some m => negb (bool_decide (m = ∅))
      | None => false
      end
  end.

(** The exception classes the two modules raise or catch. *)
Inductive exn_class :=
| ParseError
| ValidationError
| RequestException
| APIError
| OSError
| FileNotFoundError
| RuntimeError
| OtherException.

Definition exn_class_eqb (c d : exn_class) : bool :=
  match c, d with
  | ParseError, ParseError | ValidationError, ValidationError
  | RequestException, RequestException | APIError, APIError
  | OSError, OSError | FileNotFoundError, FileNotFoundError
  | RuntimeError, RuntimeError | OtherException, OtherException => true
  | _, _ => false
  end.

(** [issubclass c d]: [ValidationError] derives from [ParseError] and
    [FileNotFoundError] from [OSError]. *)
Definition issubclass (c d : exn_class) : bool :=
  match c, d with
  | ValidationError, ParseError => true
  | FileNotFoundError, OSError => true
  | _, _ => exn_class_eqb c d
  end.

(** Modelled from the spec: the class [ParseError] of [app/parser/__init__.py]
    is not among the sources; the spec gives it a message and a [parser_name]
    that is absent until the dispatcher sets it.  Every exception object is
    given that attribute here, [None] when it was never set. *)
Record exn := mk_exn {
  exc_class : exn_class;
  exc_msg : string;
  parser_name : option string
}.

Definition raise_new (c : exn_class) (msg : string) : exn :=
  {| exc_class := c; exc_msg := msg; parser_name := None |}.

(** [except (c1, c2, ...)] *)
Definition isinstance (e : exn) (cs : list exn_class) : bool :=
  existsb (issubclass (exc_class e)) cs.
Global Arguments isinstance : simpl never.

End Py.

Import Py.

(** ** Requests, observers and traces *)

Definition thread := nat.

(** A callback is a zero-argument function; only its identity matters. *)
Definition callback := nat.

(** [RequestData = namedtuple('RequestData', 'id, module, url, data, files,
    callback')] *)
Record RequestData := mkRequestData {
  rd_id : Z;
  rd_module : string;
  rd_url : string;
  rd_data : ref;
  rd_files : option ref;
  rd_callback : option callback
}.

(** Modelled from the spec: [OutputLine] of [app/parser/__init__.py] is not
    among the sources; the spec gives it a message id, a timestamp and the raw
    text. *)
Record OutputLine := mkOutputLine {
  msg_id : value;
  timestamp : datetime;
  line_text : string
}.

(** [TracebackException.from_exception(e)] *)
Record TracebackException := from_exception { tb_exc : exn }.

Inductive lock_name := lock | pause_lock.

Inductive log_level := info | warning | exception.

(** What a method does to the outside, in order. *)
Inductive event :=
| acquire (l : lock_name)
| release (l : lock_name)
| queue_append (rd : RequestData)
| queue_popleft (rd : RequestData)
| on_request_added (rd : RequestData)
| on_request_processing (rd : RequestData)
| on_request_processed (rd : RequestData)
| on_paused (b : bool)
| on_error (rd : RequestData) (e : exn) (tb : TracebackException)
| api_create (url : string) (data : ref) (files : option ref)
| call_callback (c : callback)
| on_line_parsed (l : OutputLine)
| on_line_parse_failed (l : OutputLine)
| sleep (ms : nat)
| log (logger : string) (lvl : log_level) (msg : string)
| signal (name : string).

(** Where a thread is left when the script of its environment ends. *)
Inductive waitpoint :=
| wait_not_empty
| wait_unpaused (rd : RequestData)
| retrying (rd : RequestData)
| polling.

Inductive outcome (A : Type) :=
| Val (a : A)
| Exc (e : exn)
| Block (w : waitpoint).
Arguments Val {A} a.
Arguments Exc {A} e.
Arguments Block {A} w.

(** A computation over a state [S]: how it ends, the state it leaves and the
    events it produced. *)
Definition M (S A : Type) : Type := S -> outcome A * S * list event.

Definition ret {S A} (a : A) : M S A := fun s => (Val a, s, []).

Definition bind {S A B} (m : M S A) (k : A -> M S B) : M S B := fun s =>
  match m s with
  | (Val a, s1, t1) =>
      match k a s1 with
      | (o, s2, t2) => (o, s2, t1 ++ t2)
      end
  | (Exc e, s1, t1) => (Exc e, s1, t1)
  | (Block w, s1, t1) => (Block w, s1, t1)
  end.

Notation "x <- m ;; k" := (bind m (fun x => k))
  (at level 100, m at next level, right associativity).
Notation "m ;;; k" := (bind m (fun _ => k))
  (at level 100, right associativity).

Definition emit {S} (e : event) : M S unit := fun s => (Val tt, s, [e]).
Definition get {S} : M S S := fun s => (Val s, s, []).
Definition modify {S} (f : S -> S) : M S unit := fun s => (Val tt, f s, []).
Definition raise {S A} (e : exn) : M S A := fun s => (Exc e, s, []).
Definition block {S A} (w : waitpoint) : M S A := fun s => (Block w, s, []).

(** [try: m  except cs as e: h e] *)
Definition try_except {S A} (m : M S A) (cs : list exn_class)
    (h : exn -> M S A) : M S A := fun s =>
  match m s with
  | (Exc e, s1, t1) =>
      if isinstance e cs then
        match h e s1 with
        | (o, s2, t2) => (o, s2, t1 ++ t2)
        end
      else (Exc e, s1, t1)
  | r => r
  end.

(** [with l: m]: the lock is released when [m] returns or raises; a thread
    that blocks inside keeps its place. *)
Definition with_lock {S A} (l : lock_name) (m : M S A) : M S A := fun s =>
  match m s with
  | (Val a, s1, t1) => (Val a, s1, acquire l :: t1 ++ [release l])
  | (Exc e, s1, t1) => (Exc e, s1, acquire l :: t1 ++ [release l])
  | (Block w, s1, t1) => (Block w, s1, acquire l :: t1)
  end.

Definition events_of {A S} (r : outcome A * S * list event) : list event := r.2.
Definition state_of {A S} (r : outcome A * S * list event) : S := r.1.2.
Definition outcome_of {A S} (r : outcome A * S * list event) : outcome A := r.1.1.

(** ** app/sender/__init__.py *)

Module sender.

(** The fields of a [Sender].  A condition variable is the list of the
    threads waiting on it, oldest first; [api] and [session] belong to the
    outside. *)
Record Sender := mkSender {
  id : Z;
  paused : bool;
  skip_current : bool;
  queue : list RequestData;
  not_empty : list thread;
  unpaused : list thread
}.

(** The sender together with the dictionaries it shares with its callers. *)
Record state := mkState {
  heap : Py.heap;
  self : Sender
}.

Definition set_id (n : Z) (s : state) : state :=
  mkState (heap s)
    (mkSender n (paused (self s)) (skip_current (self s)) (queue (self s))
       (not_empty (self s)) (unpaused (self s))).

Definition set_paused_flag (b : bool) (s : state) : state :=
  mkState (heap s)
    (mkSender (id (self s)) b (skip_current (self s)) (queue (self s))
       (not_empty (self s)) (unpaused (self s))).

Definition set_skip_current_flag (b : bool) (s : state) : state :=
  mkState (heap s)
    (mkSender (id (self s)) (paused (self s)) b (queue (self s))
       (not_empty (self s)) (unpaused (self s))).

Definition set_queue (q : list RequestData) (s : state) : state :=
  mkState (heap s)
    (mkSender (id (self s)) (paused (self s)) (skip_current (self s)) q
       (not_empty (self s)) (unpaused (self s))).

Definition set_not_empty (w : list thread) (s : state) : state :=
  mkState (heap s)
    (mkSender (id (self s)) (paused (self s)) (skip_current (self s))
       (queue (self s)) w (unpaused (self s))).

Definition set_unpaused (w : list thread) (s : state) : state :=
  mkState (heap s)
    (mkSender (id (self s)) (paused (self s)) (skip_current (self s))
       (queue (self s)) (not_empty (self s)) w).

Definition set_heap (h : Py.heap) (s : state) : state := mkState h (self s).

(** [Sender.__init__], with the dictionaries that exist at that time. *)
Definition init (h : Py.heap) : state :=
  mkState h (mkSender 1 false false [] [] []).

(** [Condition.notify()]: wakes one waiting thread, the oldest, if any. *)
Definition notify (w : list thread) : list thread := drop 1 w.

(** What another thread may do to the sender, or to a dictionary it shares
    with it, while a method runs. *)
Inductive action :=
| do_add_request (module url : string) (data : ref) (files : option ref)
    (append_timestamp : option datetime) (cb : option callback)
| do_set_paused (b : bool)
| do_set_skip_current
| do_setitem (r : ref) (k : string) (v : value).

(** One pass of the retry loop of [process_request] as its environment sees
    it: what other threads do before the pause check, while the consumer
    waits to be unpaused, before the skip check and while the request is in
    flight, and how [api.create] ends. *)
Record round := mkRound {
  before_pause : list action;
  while_paused : list action;
  before_skip : list action;
  during_create : list action;
  result : option exn
}.

(** How one pass of the retry loop goes: it leaves the loop at [break], or
    [api.create] returns, or it raises. *)
Inductive attempt_end := broke | created | failed (exc_value : exn).

(** How the retry loop is left. *)
Inductive loop_exit := submitted | skipped.

(** A call of a method of the sender by some thread: the consumer's
    [process_request] with the script of its environment, or any of the
    others. *)
Inductive call :=
| by_consumer (me : thread) (waits : list (list action)) (rounds : list round)
| by_other (a : action).

Section with_api.

(** [api.encode_datetime], from [app/api.py] which is not among the sources. *)
Variable encode_datetime : datetime -> value.

(** [append_timestamp] is [Some utcnow] for a true flag, with the reading
    [datetime.utcnow()] then gives, and [None] for a false one. *)
Definition add_request (module url : string) (data : ref)
    (files : option ref) (append_timestamp : option datetime)
    (cb : option callback) : M state unit :=
  match append_timestamp with
  | Some utcnow =>
      modify (fun s =>
        set_heap (setitem data "timestamp" (encode_datetime utcnow) (heap s)) s)
  | None => ret tt
  end ;;;
  request_data <-
    with_lock lock (
      s <- get ;;
      let request_data :=
        mkRequestData (id (self s)) module url data files cb in
      modify (set_id (id (self s) + 1)) ;;;
      modify (fun s => set_queue (queue (self s) ++ [request_data]) s) ;;;
      emit (queue_append request_data) ;;;
      modify (fun s => set_not_empty (notify (not_empty (self s))) s) ;;;
      ret request_data) ;;
  emit (on_request_added request_data).

Definition set_paused (b : bool) : M state unit :=
  with_lock pause_lock (
    modify (set_paused_flag b) ;;;
    (if negb b
     then modify (fun s => set_unpaused (notify (unpaused (self s))) s)
     else ret tt) ;;;
    emit (on_paused b)).

Definition set_skip_current : M state unit :=
  with_lock lock (modify (set_skip_current_flag true)).

Definition run_action (a : action) : M state unit :=
  match a with
  | do_add_request module url data files append_timestamp cb =>
      add_request module url data files append_timestamp cb
  | do_set_paused b => set_paused b
  | do_set_skip_current => set_skip_current
  | do_setitem r k v => modify (fun s => set_heap (setitem r k v (heap s)) s)
  end.

Fixpoint run_actions (acts : list action) : M state unit :=
  match acts with
  | [] => ret tt
  | a :: acts' => run_action a ;;; run_actions acts'
  end.

(** [self.not_empty.wait()], called with [lock] held: the thread joins the
    waiters and gives the lock up; it takes the lock again once a [notify]
    has removed it from the waiters, and stays blocked if none does. *)
Definition wait_not_empty_cond (me : thread) (others : list action)
  : M state unit :=
  modify (fun s => set_not_empty (not_empty (self s) ++ [me]) s) ;;;
  emit (release lock) ;;;
  run_actions others ;;;
  s <- get ;;
  if bool_decide (me ∈ not_empty (self s)) then block wait_not_empty
  else emit (acquire lock).

(** [self.unpaused.wait()], called with [pause_lock] held. *)
Definition wait_unpaused_cond (me : thread) (rd : RequestData)
    (others : list action) : M state unit :=
  modify (fun s => set_unpaused (unpaused (self s) ++ [me]) s) ;;;
  emit (release pause_lock) ;;;
  run_actions others ;;;
  s <- get ;;
  if bool_decide (me ∈ unpaused (self s)) then block (wait_unpaused rd)
  else emit (acquire pause_lock).

(** [while not len(self.queue): self.not_empty.wait()] followed by
    [self.queue.popleft()]; [waits] lists what other threads do during each
    wait. *)
Fixpoint await_item (me : thread) (waits : list (list action))
  : M state RequestData :=
  s <- get ;;
  match queue (self s), waits with
  | request_data :: q, _ =>
      modify (set_queue q) ;;;
      emit (queue_popleft request_data) ;;;
      ret request_data
  | [], [] => wait_not_empty_cond me [] ;;; block wait_not_empty
  | [], others :: waits' =>
      wait_not_empty_cond me others ;;; await_item me waits'
  end.

(** One pass of the loop [while repeat:] of [process_request], up to the
    end of the call of [api.create]. *)
Definition attempt (me : thread) (request_data : RequestData) (r : round)
  : M state attempt_end :=
  run_actions (before_pause r) ;;;
  with_lock pause_lock (
    s <- get ;;
    if paused (self s)
    then wait_unpaused_cond me request_data (while_paused r)
    else ret tt) ;;;
  run_actions (before_skip r) ;;;
  skip <-
    with_lock lock (
      s <- get ;;
      if skip_current (self s)
      then modify (set_skip_current_flag false) ;;; ret true
      else ret false) ;;
  if (skip : bool) then ret broke
  else
    emit (on_request_processing request_data) ;;;
    emit (api_create (rd_url request_data) (rd_data request_data)
            (rd_files request_data)) ;;;
    run_actions (during_create r) ;;;
    match result r with
    | None => ret created
    | Some exc_value => ret (failed exc_value)
    end.

(** The [except (requests.exceptions.RequestException, APIError):] block. *)
Definition on_failure (request_data : RequestData) (exc_value : exn)
  : M state unit :=
  emit (log "sender" exception
          ("Could not send request: " +:+ exc_msg exc_value)) ;;;
  emit (on_error request_data exc_value (from_exception exc_value)) ;;;
  set_paused true.

(** The loop [while repeat:] of [process_request]; an exception of
    [api.create] that the [except] clause does not name leaves the method. *)
Fixpoint retry (me : thread) (request_data : RequestData)
    (rounds : list round) : M state loop_exit :=
  match rounds with
  | [] => block (retrying request_data)
  | r :: rounds' =>
      a <- attempt me request_data r ;;
      match a with
      | broke => ret skipped
      | created => ret submitted
      | failed exc_value =>
          if isinstance exc_value [RequestException; APIError] then
            on_failure request_data exc_value ;;;
            retry me request_data rounds'
          else raise exc_value
      end
  end.

Definition process_request (me : thread) (waits : list (list action))
    (rounds : list round) : M state unit :=
  request_data <- with_lock lock (await_item me waits) ;;
  retry me request_data rounds ;;;
  emit (on_request_processed request_data) ;;;
  match rd_callback request_data with
  | Some c => emit (call_callback c)
  | None => ret tt
  end.

Definition run_call (c : call) : M state unit :=
  match c with
  | by_consumer me waits rounds => process_request me waits rounds
  | by_other a => run_action a
  end.

(** Calls made one after the other, by whichever threads: a call that is
    left blocked, or raises, does not keep the later ones from being made. *)
Fixpoint run_calls (cs : list call) (s : state) : state * list event :=
  match cs with
  | [] => (s, [])
  | c :: cs' =>
      match run_call c s with
      | (_, s1, t1) =>
          match run_calls cs' s1 with
          | (s2, t2) => (s2, t1 ++ t2)
          end
      end
  end.

End with_api.

End sender.

(** ** app/parser/outputparser.py *)

Module outputparser.

(** How a call of [parser.parse] ends. *)
Inductive parse_result :=
| returns (data : option ref)
| raises (e : exn).

(** Modelled from the spec: the parser classes ([GPSParser],
    [TelemetryParser], [KundtParser]) are not among the sources; the spec
    gives each a pure [can_parse] returning a message id or a false value, a
    [parse] returning the parsed record (a dictionary, which it allocates or
    updates in the heap, or nothing) or raising, and a [url].  [class_name] is
    [parser.__class__.__name__]. *)
Record Parser := mkParser {
  class_name : string;
  url : string;
  can_parse : string -> value;
  parse : OutputLine -> Py.heap -> Py.heap * parse_result
}.

Record BaseOutputParser := mkBaseOutputParser {
  _parsers : list Parser;
  is_terminated : bool
}.

(** A parser object and the sender it holds a reference to. *)
Record state := mkState {
  self : BaseOutputParser;
  sender : sender.state
}.

Definition set_sender (snd : sender.state) (s : state) : state :=
  mkState (self s) snd.

Definition set_is_terminated (b : bool) (s : state) : state :=
  mkState (mkBaseOutputParser (_parsers (self s)) b) (sender s).

(** [BaseOutputParser.__init__] *)
Definition init (parsers : list Parser) (snd : sender.state) : state :=
  mkState (mkBaseOutputParser parsers false) snd.

(** A method of [self.sender] called from the parser. *)
Definition in_sender {A} (m : M sender.state A) : M state A := fun s =>
  match m (sender s) with
  | (o, snd, t) => (o, set_sender snd s, t)
  end.

(** [s.rstrip(chars)] *)
Fixpoint rstrip (chars : list Ascii.ascii) (s : string) : string :=
  match s with
  | EmptyString => EmptyString
  | String c s' =>
      match rstrip chars s' with
      | EmptyString =>
          if bool_decide (c ∈ chars) then EmptyString
          else String c EmptyString
      | r => String c r
      end
  end.

Definition CR : Ascii.ascii := Ascii.ascii_of_nat 13.
Definition LF : Ascii.ascii := Ascii.ascii_of_nat 10.

(** One event of the life of [parse_file]'s loop: another thread calls
    [mark_terminated], or the loop makes one pass in which [readline] gives
    [line] and [datetime.now()], if asked, gives [now]. *)
Inductive tick :=
| mark
| readline (line : string) (now : datetime).

Definition set_parser_name (e : exn) (name : string) : exn :=
  mk_exn (exc_class e) (exc_msg e) (Some name).

Section with_api.

Variable encode_datetime : datetime -> value.

Definition call_parse (parser : Parser) (output_line : OutputLine)
  : M state (option ref) := fun s =>
  match parse parser output_line (sender.heap (sender s)) with
  | (h, returns data) =>
      (Val data, set_sender (sender.set_heap h (sender s)) s, [])
  | (h, raises e) =>
      (Exc e, set_sender (sender.set_heap h (sender s)) s, [])
  end.

(** The [for parser in self._parsers:] loop of [parse_line] over the parsers
    still to try, and the [raise] that follows it. *)
Fixpoint parse_line_with (parsers : list Parser) (line : string)
    (now : datetime) : M state unit :=
  match parsers with
  | [] => raise (raise_new ParseError "Line was not parsed by any parser")
  | parser :: parsers' =>
      let msg_id := can_parse parser line in
      if truthy msg_id then
        let parser_name := class_name parser in
        let output_line := mkOutputLine msg_id now line in
        data <-
          try_except
            (data <- call_parse parser output_line ;;
             emit (on_line_parsed output_line) ;;;
             ret data)
            [ParseError]
            (fun e =>
               emit (on_line_parse_failed output_line) ;;;
               raise (set_parser_name e parser_name)) ;;
        s <- get ;;
        if truthy_dict (sender.heap (sender s)) data then
          match data with
          | Some d =>
              in_sender (modify (fun snd =>
                sender.set_heap
                  (setitem d "timestamp" (VDatetime (timestamp output_line))
                     (sender.heap snd)) snd)) ;;;
              in_sender (sender.add_request encode_datetime parser_name
                           (url parser) d None None None)
          | None => ret tt
          end
        else ret tt
      else parse_line_with parsers' line now
  end.

Definition parse_line (line : string) (now : datetime) : M state unit :=
  s <- get ;;
  parse_line_with (_parsers (self s)) line now.

Definition mark_terminated : M state unit :=
  modify (set_is_terminated true).

(** [logging.getLogger(e.parser_name) if e.parser_name else self.logger] *)
Definition logger_for (e : exn) : string :=
  match parser_name e with
  | Some name => if String.eqb name "" then "Parser" else name
  | None => "Parser"
  end.

(** The body of the loop of [parse_file], on what [readline] returned. *)
Definition poll (line : string) (now : datetime) : M state unit :=
  if String.eqb line "" then emit (sleep 50)
  else
    let line := rstrip [CR; LF] line in
    if String.eqb line "" then emit (log "Parser" warning "Empty line received")
    else
      try_except (parse_line line now) [ParseError]
        (fun e =>
           emit (log (logger_for e) exception
                   ("Could not parse line: " +:+ line +:+ " (" +:+ exc_msg e
                    +:+ ")"))).

(** [while not self.is_terminated:] *)
Fixpoint read_loop (ticks : list tick) : M state unit :=
  s <- get ;;
  if is_terminated (self s) then ret tt
  else
    match ticks with
    | [] => block polling
    | mark :: ticks' => mark_terminated ;;; read_loop ticks'
    | readline line now :: ticks' => poll line now ;;; read_loop ticks'
    end.

(** [BaseOutputParser.parse_file]; [opened] is the exception [os.open]
    raises, if it raises. *)
Definition parse_file (opened : option exn) (ticks : list tick)
  : M state unit :=
  match opened with
  | Some e => raise e
  | None => read_loop ticks
  end.

(** [QtOutputParserWorker.run] *)
Definition run (opened : option exn) (ticks : list tick) : M state unit :=
  try_except (parse_file opened ticks) [OSError]
    (fun e =>
       emit (log "Parser" exception
               ("Could not parse file (" +:+ exc_msg e +:+ ")"))).

End with_api.

(** A [QtOutputParserWorker]: the path it was given, the parser it is,
    whether its thread has passed [os.open] and whether the thread runs
    ([QThread.isRunning]). *)
Record QtOutputParserWorker := mkWorker {
  w_path : string;
  w_self : BaseOutputParser;
  w_opened : bool;
  isRunning : bool
}.

(** The fields of a [ParserManager] ([_probe_start_time] plays no part
    here). *)
Record ParserManager := mkParserManager {
  worker : option QtOutputParserWorker;
  path : option string;
  terminated_by_user : bool
}.

Module Manager.

(** The manager and the sender it hands to its workers. *)
Record state := mkState {
  self : ParserManager;
  sender : sender.state
}.

Definition set_self (m : ParserManager) (s : state) : state :=
  mkState m (sender s).

(** [ParserManager.__init__] *)
Definition init (snd : sender.state) : state :=
  mkState (mkParserManager None None false) snd.

Definition is_running (m : ParserManager) : bool :=
  match worker m with
  | Some w => isRunning w
  | None => false
  end.

Definition set_terminated_by_user (b : bool) (m : ParserManager)
  : ParserManager :=
  mkParserManager (worker m) (path m) b.

Definition set_path (p : string) (m : ParserManager) : ParserManager :=
  mkParserManager (worker m) (Some p) (terminated_by_user m).

Definition set_worker (w : QtOutputParserWorker) (m : ParserManager)
  : ParserManager :=
  mkParserManager (Some w) (path m) (terminated_by_user m).

(** [self.worker.mark_terminated()] *)
Definition worker_mark_terminated (m : ParserManager) : ParserManager :=
  match worker m with
  | Some w =>
      set_worker
        (mkWorker (w_path w)
           (mkBaseOutputParser (_parsers (w_self w)) true)
           (w_opened w) (isRunning w)) m
  | None => m
  end.

Definition terminate : M state unit :=
  s <- get ;;
  if is_running (self s) then
    modify (fun s => set_self (set_terminated_by_user true (self s)) s) ;;;
    modify (fun s => set_self (worker_mark_terminated (self s)) s)
  else ret tt.

Definition _on_parser_terminated : M state unit :=
  s <- get ;;
  if terminated_by_user (self s)
  then emit (log "Parser" info "Parser was terminated by the user")
  else emit (log "Parser" warning "Parser terminated unexpectedly").

Section with_parsers.

Variable encode_datetime : datetime -> value.

(** [PARSERS = [GPSParser, TelemetryParser, KundtParser]], instantiated. *)
Variable PARSERS : list Parser.

(** [ParserManager.parse_file]; [resolved] is what [str(Path(path).resolve())]
    gives: the resolved path, or the exception it raises. *)
Definition parse_file (resolved : string + exn) : M state unit :=
  s <- get ;;
  if is_running (self s)
  then raise (raise_new RuntimeError "The worker is already running")
  else
    match resolved with
    | inr e =>
        if isinstance e [FileNotFoundError] then
          emit (log "Parser" exception
                  ("Parser start failed: could not find data file ("
                   +:+ exc_msg e +:+ ")"))
        else raise e
    | inl p =>
        modify (fun s => set_self (set_path p (self s)) s) ;;;
        emit (log "Parser" info ("Starting parser: " +:+ p)) ;;;
        modify (fun s =>
          set_self
            (set_worker
               (mkWorker p (mkBaseOutputParser PARSERS false) false true)
               (self s)) s)
    end.

(** The worker thread runs on: it enters [run] if it has not yet, else it
    goes on in the loop of [parse_file], for as long as [ticks] tells.  When
    [run] returns the thread finishes and its [finished] signal reaches
    [_on_parser_terminated] and [parser_terminated].  An exception that
    leaves [run] is handed on as it is: what Qt does with it is not in the
    sources. *)
Definition worker_runs (opened : option exn) (ticks : list tick)
  : M state unit := fun s =>
  match worker (self s) with
  | Some w =>
      if isRunning w then
        match run encode_datetime (if w_opened w then None else opened) ticks
                (outputparser.mkState (w_self w) (sender s)) with
        | (o, ps, t) =>
            let w' finished :=
              mkWorker (w_path w) (outputparser.self ps) true (negb finished) in
            let s' finished :=
              mkState (set_worker (w' finished) (self s))
                (outputparser.sender ps) in
            let started := if w_opened w then [] else [signal "parser_started"] in
            match o with
            | Val _ =>
                match (_on_parser_terminated ;;;
                       emit (signal "parser_terminated")) (s' true) with
                | (o2, s2, t2) => (o2, s2, started ++ t ++ t2)
                end
            | Exc e => (Exc e, s' false, started ++ t)
            | Block b => (Block b, s' false, started ++ t)
            end
        end
      else (Val tt, s, [])
  | None => (Val tt, s, [])
  end.

(** What happens to a manager, one after the other. *)
Inductive call :=
| call_parse_file (resolved : string + exn)
| call_terminate
| thread_runs (opened : option exn) (ticks : list tick).

Definition run_call (c : call) : M state unit :=
  match c with
  | call_parse_file resolved => parse_file resolved
  | call_terminate => terminate
  | thread_runs opened ticks => worker_runs opened ticks
  end.

Fixpoint run_calls (cs : list call) : M state unit :=
  match cs with
  | [] => ret tt
  | c :: cs' => run_call c ;;; run_calls cs'
  end.

End with_parsers.

End Manager.

End outputparser.

(** ** What a trace tells *)

(** The requests put in the queue, in order. *)
Definition appended (t : list event) : list RequestData :=
  omap (fun e => match e with queue_append rd => Some rd | _ => None end) t.

(** The requests taken from the queue, in order. *)
Definition popped (t : list event) : list RequestData :=
  omap (fun e => match e with queue_popleft rd => Some rd | _ => None end) t.

(** The requests announced as processed. *)
Definition processed (t : list event) : list RequestData :=
  omap (fun e => match e with on_request_processed rd => Some rd | _ => None end) t.

(** The callbacks invoked. *)
Definition callbacks (t : list event) : list callback :=
  omap (fun e => match e with call_callback c => Some c | _ => None end) t.

(** The submissions to the API. *)
Definition submissions (t : list event) : list (string * ref * option ref) :=
  omap (fun e => match e with
                 | api_create u d f => Some (u, d, f)
                 | _ => None
                 end) t.

(** The requests given to the error observers. *)
Definition errors (t : list event) : list RequestData :=
  omap (fun e => match e with on_error rd _ _ => Some rd | _ => None end) t.

(** The events of [if request_data.callback: request_data.callback()]. *)
Definition callback_events (rd : RequestData) : list event :=
  match rd_callback rd with
  | Some c => [call_callback c]
  | None => []
  end.

Definition queue_event (e : event) : bool :=
  match e with
  | queue_append _ | queue_popleft _ => true
  | _ => false
  end.

(** What a stretch of execution with trace [t] from [s] to [s'] does to the
    identifiers and to the queue: the requests appended carry the
    identifiers from [id s] on, one after the other; the next identifier is
    advanced past them; and what was popped, followed by what is left, is
    what was there followed by what was appended. *)
Definition queue_effect (s : sender.state) (t : list event)
    (s' : sender.state) : Prop :=
  rd_id <$> appended t
    = seqZ (sender.id (sender.self s)) (Z.of_nat (length (appended t)))
  ∧ sender.id (sender.self s')
    = (sender.id (sender.self s) + Z.of_nat (length (appended t)))%Z
  ∧ popped t ++ sender.queue (sender.self s')
    = sender.queue (sender.self s) ++ appended t.

Definition respects {A} (m : M sender.state A) : Prop :=
  forall s, queue_effect s (events_of (m s)) (state_of (m s)).

(** Every event of every run of [m] satisfies [P]. *)
Definition only {S A} (P : event -> Prop) (m : M S A) : Prop :=
  forall s, Forall P (events_of (m s)).

(** The events that [add_request], [set_paused] and [set_skip_current]
    produce. *)
Definition from_callers (e : event) : Prop :=
  match e with
  | acquire _ | release _ | queue_append _ | on_request_added _
  | on_paused _ => True
  | _ => False
  end.

(** The events of the retry loop working on [rd]: besides those of the calls
    made meanwhile, it announces [rd], submits [rd], and reports the failure
    of [rd]. *)
Definition from_retry (rd : RequestData) (e : event) : Prop :=
  from_callers e
  \/ e = on_request_processing rd
  \/ e = api_create (rd_url rd) (rd_data rd) (rd_files rd)
  \/ (exists x, e = log "sender" exception
                      ("Could not send request: " +:+ exc_msg x))
  \/ (exists x, e = on_error rd x (from_exception x)).

(** The events other than the two with which [process_request] ends. *)
Definition quiet (e : event) : Prop :=
  match e with
  | on_request_processed _ | call_callback _ => False
  | _ => True
  end.

(** [m] leaves the fields of the parser object as they are. *)
Definition keeps_self {A} (m : M outputparser.state A) : Prop :=
  forall s, outputparser.self (state_of (m s)) = outputparser.self s.

(** *** Sample inputs *)

Definition sample_encode (t : datetime) : value := VInt t.

Definition sample_request : RequestData :=
  mkRequestData 1 "GPSParser" "/gps" 1%positive None (Some 7).

(** A pass in which nothing else happens and [api.create] raises
    [APIError]. *)
Definition failing_round : sender.round :=
  sender.mkRound [] [] [] [] (Some (raise_new APIError "503")).

(** A pass in which the queue is unpaused while the consumer waits and
    [api.create] returns. *)
Definition resumed_round : sender.round :=
  sender.mkRound [] [sender.do_set_paused false] [] [] None.

Definition sample_heap : Py.heap :=
  {[ 1%positive := {[ "lat" := VInt 50 ]} ]}.

(** A parser in the manner of [GPSParser]: it claims the lines that start
    with [$GPGGA], rejects the one without a fix, and otherwise fills the
    record it keeps at reference 10. *)
Definition sample_gps : outputparser.Parser :=
  outputparser.mkParser "GPSParser" "/gps"
    (fun line => if String.prefix "$GPGGA" line then VStr "GPGGA" else VNone)
    (fun output_line h =>
       if String.eqb (line_text output_line) "$GPGGA,"
       then (h, outputparser.raises (raise_new ValidationError "no fix"))
       else (<[10%positive := {[ "lat" := VInt 50 ]}]> h,
             outputparser.returns (Some 10%positive))).

(** A parser that claims the lines that start with [T] and has nothing to
    send for them. *)
Definition sample_telemetry : outputparser.Parser :=
  outputparser.mkParser "TelemetryParser" "/telemetry"
    (fun line => if String.prefix "T" line then VStr "T" else VNone)
    (fun output_line h => (h, outputparser.returns None)).

Definition sample_parser_state : outputparser.state :=
  outputparser.init [sample_gps; sample_telemetry] (sender.init sample_heap).

(** ["\r\n"], the end of a line of the log. *)
Definition CRLF : string :=
  String outputparser.CR (String outputparser.LF EmptyString).

(** ** The sender worker *)

Module QtSenderWorker.

Section with_api.

Variable encode_datetime : datetime -> value.

(** [QtSenderWorker.run]: [while True: self.sender.process_request()].
    [scripts] gives, call after call, the script of the environment; when it
    ends, the call that follows is made with no one else acting. *)
Fixpoint run (me : thread)
    (scripts : list (list (list sender.action) * list sender.round))
  : M sender.state unit :=
  match scripts with
  | [] => sender.process_request encode_datetime me [] []
  | (waits, rounds) :: scripts' =>
      sender.process_request encode_datetime me waits rounds ;;;
      run me scripts'
  end.

End with_api.

End QtSenderWorker.

(** ** More of what a trace tells *)

(** What [api.create] is given for a request. *)
Definition submitted_fields (rd : RequestData) : string * ref * option ref :=
  (rd_url rd, rd_data rd, rd_files rd).

(** The lines given to the line observers, parsed or not. *)
Definition announced (t : list event) : list OutputLine :=
  omap (fun e => match e with
                 | on_line_parsed l | on_line_parse_failed l => Some l
                 | _ => None
                 end) t.

(** A line as [parse_line] is to get it: not empty, and with no carriage
    return or line feed at its end. *)
Definition stripped (line : string) : Prop :=
  line <> "" /\
  outputparser.rstrip [outputparser.CR; outputparser.LF] line = line.

(** The submissions made when each of the requests [rds], in turn, is
    submitted the number of times [ks] gives for it. *)
Definition each_in_turn (ks : list nat) (rds : list RequestData)
  : list (string * ref * option ref) :=
  concat (zip_with (fun k rd => replicate k (submitted_fields rd)) ks rds).

(** The events of [add_request], [set_paused], [set_skip_current] and of
    taking a request from the queue. *)
Definition from_await (e : event) : Prop :=
  from_callers e \/ exists rd, e = queue_popleft rd.

(** The number of passes of the loop of [parse_file] that [ticks] tells. *)
Fixpoint reads (ticks : list outputparser.tick) : nat :=
  match ticks with
  | [] => 0
  | outputparser.mark :: ticks' => reads ticks'
  | outputparser.readline _ _ :: ticks' => S (reads ticks')
  end.

(** What dispatching one line can do, from [st] to [st'] with trace [t]:
    nothing to the sender, with no line announced or this line announced
    once, as failed or as parsed; or this line announced as parsed and one
    request queued under the next identifier. *)
Definition dispatched (line : string) (now : datetime)
    (st st' : outputparser.state) (t : list event) : Prop :=
  (sender.self (outputparser.sender st') = sender.self (outputparser.sender st)
   /\ (t = []
       \/ exists msg,
            t = [on_line_parse_failed (mkOutputLine msg now line)]
            \/ t = [on_line_parsed (mkOutputLine msg now line)]))
  \/ (exists msg rd,
        t = [on_line_parsed (mkOutputLine msg now line);
             acquire lock; queue_append rd; release lock; on_request_added rd]
        /\ rd_id rd = sender.id (sender.self (outputparser.sender st))
        /\ sender.id (sender.self (outputparser.sender st'))
           = (sender.id (sender.self (outputparser.sender st)) + 1)%Z
        /\ sender.queue (sender.self (outputparser.sender st'))
           = sender.queue (sender.self (outputparser.sender st)) ++ [rd]).

(** What a stretch of the loop of [parse_file] does to the queue and tells
    the line observers: it takes nothing from the queue, numbers what it
    appends from the sender's next identifier on, appends at most [n]
    requests, and announces only stripped lines. *)
Definition ingested (n : nat) (st st' : outputparser.state) (t : list event)
  : Prop :=
  queue_effect (outputparser.sender st) t (outputparser.sender st')
  /\ popped t = []
  /\ length (appended t) <= n
  /\ Forall (fun l => stripped (line_text l)) (announced t).

(** A parser that claims the lines that start with [K] and fails on them
    with an error that is not a [ParseError]. *)
Definition sample_kundt : outputparser.Parser :=
  outputparser.mkParser "KundtParser" "/kundt"
    (fun line => if String.prefix "K" line then VStr "K" else VNone)
    (fun output_line h =>
       (h, outputparser.raises (raise_new OSError "no sound card"))).

Definition sample_parsers_state : outputparser.state :=
  outputparser.init [sample_gps; sample_telemetry; sample_kundt]
    (sender.init sample_heap).

(** A pass of the retry loop during which no other thread does anything. *)
Definition alone (res : option exn) : sender.round :=
  sender.mkRound [] [] [] [] res.

(** A sender whose queue holds the sample request. *)
Definition sample_sender : sender.state :=
  state_of (sender.add_request sample_encode "GPSParser" "/gps" 1%positive
              None None (Some 7) (sender.init sample_heap)).

(** ** The queue: identifiers and order *)

(** Projections of a result that is given as a triple. *)
Ltac triple :=
  repeat first
    [ progress change (outcome_of (?o, ?s, ?t)) with o
    | progress change (state_of (?o, ?s, ?t)) with s
    | progress change (events_of (?o, ?s, ?t)) with t ].

(** Projections of triples and the matches they feed, to the end. *)
Ltac triples := repeat first [ progress triple | progress cbv beta iota ].

(** *** The definitions on small inputs *)

Example rstrip_line_end :
  outputparser.rstrip [outputparser.CR; outputparser.LF] ("$GPGGA,50" +:+ CRLF)
  = "$GPGGA,50".
Proof. reflexivity. Qed.

Example rstrip_keeps_inner_line_ends :
  outputparser.rstrip [outputparser.CR; outputparser.LF]
    ("a" +:+ CRLF +:+ "b" +:+ CRLF +:+ CRLF)
  = "a" +:+ CRLF +:+ "b".
Proof. reflexivity. Qed.

Example validation_error_is_a_parse_error :
  isinstance (raise_new ValidationError "no fix") [ParseError] = true
  /\ isinstance (raise_new OSError "denied") [RequestException; APIError]
     = false.
Proof. split; reflexivity. Qed.

Example first_request_gets_id_1 :
  sender.queue (sender.self (state_of
    (sender.add_request sample_encode "main" "/status" 1%positive None
       (Some 1700000000%Z) None (sender.init sample_heap))))
  = [mkRequestData 1 "main" "/status" 1%positive None None].
Proof. reflexivity. Qed.

(** A line that is parsed, an empty read, a line no parser claims and a line
    the GPS parser rejects, and then the stop: one request is queued. *)
Example three_lines_one_request :
  let r :=
    outputparser.parse_file sample_encode None
      [outputparser.readline ("$GPGGA,50" +:+ CRLF) 1%Z;
       outputparser.readline "" 2%Z;
       outputparser.readline ("garbage" +:+ CRLF) 3%Z;
       outputparser.readline ("$GPGGA," +:+ CRLF) 4%Z;
       outputparser.mark] sample_parser_state in
  let rd := mkRequestData 1 "GPSParser" "/gps" 10%positive None None in
  outcome_of r = Val tt
  /\ sender.queue (sender.self (outputparser.sender (state_of r))) = [rd]
  /\ events_of r
     = [on_line_parsed (mkOutputLine (VStr "GPGGA") 1%Z "$GPGGA,50");
        acquire lock; queue_append rd; release lock; on_request_added rd;
        sleep 50;
        log "Parser" exception
          "Could not parse line: garbage (Line was not parsed by any parser)";
        on_line_parse_failed (mkOutputLine (VStr "GPGGA") 4%Z "$GPGGA,");
        log "GPSParser" exception "Could not parse line: $GPGGA, (no fix)"].
Proof. repeat split. Qed.

Section queue_order.

Variable encode_datetime : datetime -> value.

Lemma bind_eq {S A B} (m : M S A) (k : A -> M S B) s :
  bind m k s =
  match outcome_of (m s) with
  | Val a =>
      (outcome_of (k a (state_of (m s))), state_of (k a (state_of (m s))),
       events_of (m s) ++ events_of (k a (state_of (m s))))
  | Exc e => (Exc e, state_of (m s), events_of (m s))
  | Block w => (Block w, state_of (m s), events_of (m s))
  end.
Proof.
  unfold bind, outcome_of, state_of, events_of.
  destruct (m s) as [[[a|e|w] s1] t1]; simpl; [|done..].
  by destruct (k a s1) as [[o s2] t2].
Qed.

Lemma bind_emit {S B} e (k : unit -> M S B) s :
  bind (emit e) k s
  = (outcome_of (k tt s), state_of (k tt s), e :: events_of (k tt s)).
Proof. by rewrite bind_eq. Qed.

Lemma bind_val {S A B} (m : M S A) (k : A -> M S B) s a :
  outcome_of (m s) = Val a ->
  bind m k s
  = (outcome_of (k a (state_of (m s))), state_of (k a (state_of (m s))),
     events_of (m s) ++ events_of (k a (state_of (m s)))).
Proof. intros H. by rewrite bind_eq, H. Qed.

Lemma only_ret {S A} P (a : A) : only P (@ret S A a).
Proof. intros s. constructor. Qed.

Lemma only_get {S} P : only P (@get S).
Proof. intros s. constructor. Qed.

Lemma only_raise {S A} P e : only P (@raise S A e).
Proof. intros s. constructor. Qed.

Lemma only_block {S A} P w : only P (@block S A w).
Proof. intros s. constructor. Qed.

Lemma only_modify {S} P f : only P (@modify S f).
Proof. intros s. constructor. Qed.

Lemma only_emit {S} (P : event -> Prop) e : P e -> only P (@emit S e).
Proof. intros He s. by repeat constructor. Qed.

Lemma only_bind {S A B} P (m : M S A) (k : A -> M S B) :
  only P m -> (forall a, only P (k a)) -> only P (bind m k).
Proof.
  intros Hm Hk s. rewrite bind_eq. specialize (Hm s).
  destruct (outcome_of (m s)); unfold events_of at 1; simpl; [|done..].
  apply Forall_app. split; [done|apply Hk].
Qed.

Lemma only_with_lock {S A} (P : event -> Prop) l (m : M S A) :
  P (acquire l) -> P (release l) -> only P m -> only P (with_lock l m).
Proof.
  intros Ha Hr Hm s. specialize (Hm s). unfold with_lock, events_of in *.
  destruct (m s) as [[[a|e|w] s1] t1]; simpl in *;
    repeat first [done | constructor | apply Forall_app; split].
Qed.

Lemma only_mono {S A} (P Q : event -> Prop) (m : M S A) :
  (forall e, P e -> Q e) -> only P m -> only Q m.
Proof. intros HPQ Hm s. eapply Forall_impl; [apply Hm|done]. Qed.

Lemma queue_effect_refl s : queue_effect s [] s.
Proof.
  unfold queue_effect. simpl. rewrite Z.add_0_r, app_nil_r. done.
Qed.

Lemma queue_effect_trans s t1 s1 t2 s2 :
  queue_effect s t1 s1 -> queue_effect s1 t2 s2 ->
  queue_effect s (t1 ++ t2) s2.
Proof.
  intros (Hi1 & Hn1 & Hq1) (Hi2 & Hn2 & Hq2).
  unfold queue_effect, appended, popped in *.
  rewrite !omap_app, !length_app, fmap_app, Nat2Z.inj_add.
  rewrite seqZ_app by lia.
  rewrite Hi1, Hi2, Hn1, Hn2.
  repeat split; [lia|].
  rewrite <- app_assoc, Hq2, app_assoc, Hq1, app_assoc. done.
Qed.

Lemma queue_effect_quiet s t s' :
  forallb (fun e => negb (queue_event e)) t = true ->
  sender.id (sender.self s') = sender.id (sender.self s) ->
  sender.queue (sender.self s') = sender.queue (sender.self s) ->
  queue_effect s t s'.
Proof.
  intros Ht Hi Hq.
  assert (appended t = [] /\ popped t = []) as [Ha Hp].
  { clear Hi Hq. induction t as [|e t IH]; [done|].
    simpl in Ht. apply andb_prop in Ht as [He Ht].
    destruct (IH Ht) as [IHa IHp].
    unfold appended, popped in *. destruct e; simpl in *; done. }
  unfold queue_effect. rewrite Ha, Hp, Hi, Hq. simpl.
  rewrite Z.add_0_r, app_nil_r. done.
Qed.

Lemma respects_ret {A} (a : A) : respects (ret a).
Proof. intros s. apply queue_effect_refl. Qed.

Lemma respects_get : respects get.
Proof. intros s. apply queue_effect_refl. Qed.

Lemma respects_raise {A} e : respects (@raise _ A e).
Proof. intros s. apply queue_effect_refl. Qed.

Lemma respects_block {A} w : respects (@block _ A w).
Proof. intros s. apply queue_effect_refl. Qed.

Lemma respects_emit e : queue_event e = false -> respects (emit e).
Proof.
  intros He s. unfold events_of, state_of, emit. simpl.
  apply queue_effect_quiet; simpl; [|done..].
  rewrite He. done.
Qed.

Lemma respects_modify f :
  (forall s, sender.id (sender.self (f s)) = sender.id (sender.self s)) ->
  (forall s, sender.queue (sender.self (f s)) = sender.queue (sender.self s)) ->
  respects (modify f).
Proof.
  intros Hi Hq s. unfold events_of, state_of, modify. simpl.
  apply queue_effect_quiet; auto.
Qed.

Lemma respects_bind {A B} (m : M sender.state A) (k : A -> M sender.state B) :
  respects m -> (forall a, respects (k a)) -> respects (bind m k).
Proof.
  intros Hm Hk s. specialize (Hm s). unfold bind, events_of, state_of in *.
  destruct (m s) as [[[a|e|w] s1] t1]; simpl in *; try done.
  specialize (Hk a s1). unfold events_of, state_of in Hk.
  destruct (k a s1) as [[o s2] t2]; simpl in *.
  eapply queue_effect_trans; eauto.
Qed.

Lemma queue_effect_locked l s t s' (b : bool) :
  queue_effect s t s' ->
  queue_effect s (acquire l :: t ++ (if b then [release l] else [])) s'.
Proof.
  intros H.
  change (acquire l :: t ++ (if b then [release l] else []))
    with ([acquire l] ++ t ++ (if b then [release l] else [])).
  eapply queue_effect_trans; [apply queue_effect_quiet; done|].
  eapply queue_effect_trans; [exact H|].
  apply queue_effect_quiet; destruct b; done.
Qed.

Lemma respects_with_lock {A} l (m : M sender.state A) :
  respects m -> respects (with_lock l m).
Proof.
  intros Hm s. specialize (Hm s). unfold with_lock, events_of, state_of in *.
  destruct (m s) as [[[a|e|w] s1] t1]; simpl in *.
  - by apply (queue_effect_locked l _ _ _ true).
  - by apply (queue_effect_locked l _ _ _ true).
  - apply (queue_effect_locked l _ _ _ false) in Hm.
    by rewrite app_nil_r in Hm.
Qed.

Lemma respects_add_request module url data files ts cb :
  respects (sender.add_request encode_datetime module url data files ts cb).
Proof.
  unfold sender.add_request.
  apply respects_bind; [destruct ts; [by apply respects_modify|apply respects_ret]|].
  intros _. apply respects_bind; [|intros; by apply respects_emit].
  apply respects_with_lock. intros s.
  unfold queue_effect, events_of, state_of, appended, popped. simpl.
  split; [|done].
  change (Z.of_nat 1) with (0 + 1)%Z.
  rewrite seqZ_app, seqZ_nil, (seqZ_cons _ 1), seqZ_nil by lia.
  simpl. f_equal. lia.
Qed.

Lemma respects_set_paused b : respects (sender.set_paused b).
Proof.
  unfold sender.set_paused. apply respects_with_lock.
  apply respects_bind; [by apply respects_modify|intros _].
  apply respects_bind; [|intros; by apply respects_emit].
  destruct b; simpl; [apply respects_ret|by apply respects_modify].
Qed.

Lemma respects_set_skip_current : respects sender.set_skip_current.
Proof.
  unfold sender.set_skip_current. apply respects_with_lock.
  by apply respects_modify.
Qed.

Lemma respects_run_action a : respects (sender.run_action encode_datetime a).
Proof.
  destruct a; simpl.
  - apply respects_add_request.
  - apply respects_set_paused.
  - apply respects_set_skip_current.
  - by apply respects_modify.
Qed.

Lemma respects_run_actions acts :
  respects (sender.run_actions encode_datetime acts).
Proof.
  induction acts as [|a acts IH]; simpl; [apply respects_ret|].
  apply respects_bind; [apply respects_run_action|done].
Qed.

Lemma respects_wait_not_empty_cond me others :
  respects (sender.wait_not_empty_cond encode_datetime me others).
Proof.
  unfold sender.wait_not_empty_cond.
  apply respects_bind; [by apply respects_modify|intros _].
  apply respects_bind; [by apply respects_emit|intros _].
  apply respects_bind; [apply respects_run_actions|intros _].
  apply respects_bind; [apply respects_get|intros s].
  case_bool_decide; [apply respects_block|by apply respects_emit].
Qed.

Lemma respects_wait_unpaused_cond me rd others :
  respects (sender.wait_unpaused_cond encode_datetime me rd others).
Proof.
  unfold sender.wait_unpaused_cond.
  apply respects_bind; [by apply respects_modify|intros _].
  apply respects_bind; [by apply respects_emit|intros _].
  apply respects_bind; [apply respects_run_actions|intros _].
  apply respects_bind; [apply respects_get|intros s].
  case_bool_decide; [apply respects_block|by apply respects_emit].
Qed.

(** Taking the head of the queue. *)
Lemma queue_effect_popleft rd q s :
  sender.queue (sender.self s) = rd :: q ->
  queue_effect s [queue_popleft rd] (sender.set_queue q s).
Proof.
  intros Hq. unfold queue_effect, appended, popped. simpl.
  rewrite Hq, Z.add_0_r, app_nil_r. done.
Qed.

Lemma bind_get {S B} (k : S -> M S B) s : bind get k s = k s s.
Proof. unfold bind, get. simpl. by destruct (k s s) as [[o s2] t2]. Qed.

Lemma await_item_eq me waits s :
  sender.await_item encode_datetime me waits s =
  match sender.queue (sender.self s), waits with
  | request_data :: q, _ =>
      (Val request_data, sender.set_queue q s, [queue_popleft request_data])
  | [], [] =>
      (sender.wait_not_empty_cond encode_datetime me [] ;;;
       block wait_not_empty) s
  | [], others :: waits' =>
      (sender.wait_not_empty_cond encode_datetime me others ;;;
       sender.await_item encode_datetime me waits') s
  end.
Proof.
  destruct waits; simpl; rewrite bind_get;
    destruct (sender.queue (sender.self s)); done.
Qed.

Lemma respects_await_item me waits :
  respects (sender.await_item encode_datetime me waits).
Proof.
  induction waits as [|others waits IH]; intros s; rewrite await_item_eq;
    destruct (sender.queue (sender.self s)) as [|rd q] eqn:Hq.
  - apply (respects_bind _ _ (respects_wait_not_empty_cond me [])
             (fun _ => respects_block _)).
  - unfold events_of, state_of. simpl. by apply queue_effect_popleft.
  - apply (respects_bind _ _ (respects_wait_not_empty_cond me others)
             (fun _ => IH)).
  - unfold events_of, state_of. simpl. by apply queue_effect_popleft.
Qed.

Lemma respects_attempt me rd r :
  respects (sender.attempt encode_datetime me rd r).
Proof.
  unfold sender.attempt.
  apply respects_bind; [apply respects_run_actions|intros _].
  apply respects_bind.
  { apply respects_with_lock. apply respects_bind; [apply respects_get|].
    intros s. destruct (sender.paused (sender.self s));
      [apply respects_wait_unpaused_cond|apply respects_ret]. }
  intros _. apply respects_bind; [apply respects_run_actions|intros _].
  apply respects_bind.
  { apply respects_with_lock. apply respects_bind; [apply respects_get|].
    intros s. destruct (sender.skip_current (sender.self s));
      [|apply respects_ret].
    apply respects_bind; [by apply respects_modify|intros; apply respects_ret]. }
  intros [|]; [apply respects_ret|].
  apply respects_bind; [by apply respects_emit|intros _].
  apply respects_bind; [by apply respects_emit|intros _].
  apply respects_bind; [apply respects_run_actions|intros _].
  destruct (sender.result r); apply respects_ret.
Qed.

Lemma respects_on_failure rd e : respects (sender.on_failure rd e).
Proof.
  unfold sender.on_failure.
  apply respects_bind; [by apply respects_emit|intros _].
  apply respects_bind; [by apply respects_emit|intros _].
  apply respects_set_paused.
Qed.

Lemma respects_retry me rd rounds :
  respects (sender.retry encode_datetime me rd rounds).
Proof.
  induction rounds as [|r rounds IH]; simpl; [apply respects_block|].
  apply respects_bind; [apply respects_attempt|].
  intros [| |e]; try apply respects_ret.
  destruct (isinstance e [RequestException; APIError]); [|apply respects_raise].
  apply respects_bind; [apply respects_on_failure|done].
Qed.

Lemma respects_process_request me waits rounds :
  respects (sender.process_request encode_datetime me waits rounds).
Proof.
  unfold sender.process_request.
  apply respects_bind; [apply respects_with_lock, respects_await_item|].
  intros rd. apply respects_bind; [apply respects_retry|intros _].
  apply respects_bind; [by apply respects_emit|intros _].
  destruct (rd_callback rd); [by apply respects_emit|apply respects_ret].
Qed.

Lemma respects_run_call c : respects (sender.run_call encode_datetime c).
Proof.
  destruct c; simpl; [apply respects_process_request|apply respects_run_action].
Qed.

Lemma queue_effect_run_calls cs s :
  queue_effect s (sender.run_calls encode_datetime cs s).2
    (sender.run_calls encode_datetime cs s).1.
Proof.
  revert s. induction cs as [|c cs IH]; intros s; simpl;
    [apply queue_effect_refl|].
  pose proof (respects_run_call c s) as Hc. unfold events_of, state_of in Hc.
  destruct (sender.run_call encode_datetime c s) as [[o s1] t1]. simpl in Hc.
  specialize (IH s1).
  destruct (sender.run_calls encode_datetime cs s1) as [s2 t2]. simpl in *.
  eapply queue_effect_trans; eauto.
Qed.

(** *** What the methods emit *)

Lemma only_add_request module url data files ts cb :
  only from_callers
    (sender.add_request encode_datetime module url data files ts cb).
Proof.
  unfold sender.add_request.
  apply only_bind; [destruct ts; [apply only_modify|apply only_ret]|intros _].
  apply only_bind; [|intros; by apply only_emit].
  apply only_with_lock; [done..|].
  apply only_bind; [apply only_get|intros s].
  repeat (apply only_bind; [first [apply only_modify|by apply only_emit]|intros _]).
  apply only_ret.
Qed.

Lemma only_set_paused b : only from_callers (sender.set_paused b).
Proof.
  unfold sender.set_paused. apply only_with_lock; [done..|].
  apply only_bind; [apply only_modify|intros _].
  apply only_bind; [|intros; by apply only_emit].
  destruct b; [apply only_ret|apply only_modify].
Qed.

Lemma only_set_skip_current : only from_callers sender.set_skip_current.
Proof.
  unfold sender.set_skip_current. apply only_with_lock; [done..|].
  apply only_modify.
Qed.

Lemma only_run_actions acts :
  only from_callers (sender.run_actions encode_datetime acts).
Proof.
  induction acts as [|a acts IH]; simpl; [apply only_ret|].
  apply only_bind; [|done].
  destruct a; simpl.
  - apply only_add_request.
  - apply only_set_paused.
  - apply only_set_skip_current.
  - apply only_modify.
Qed.

Lemma only_wait_not_empty_cond me others :
  only from_callers (sender.wait_not_empty_cond encode_datetime me others).
Proof.
  unfold sender.wait_not_empty_cond.
  apply only_bind; [apply only_modify|intros _].
  apply only_bind; [by apply only_emit|intros _].
  apply only_bind; [apply only_run_actions|intros _].
  apply only_bind; [apply only_get|intros s].
  case_bool_decide; [apply only_block|by apply only_emit].
Qed.

Lemma only_wait_unpaused_cond me rd others :
  only from_callers (sender.wait_unpaused_cond encode_datetime me rd others).
Proof.
  unfold sender.wait_unpaused_cond.
  apply only_bind; [apply only_modify|intros _].
  apply only_bind; [by apply only_emit|intros _].
  apply only_bind; [apply only_run_actions|intros _].
  apply only_bind; [apply only_get|intros s].
  case_bool_decide; [apply only_block|by apply only_emit].
Qed.

Lemma from_callers_retry rd e : from_callers e -> from_retry rd e.
Proof. by left. Qed.

Lemma only_attempt me rd r :
  only (from_retry rd) (sender.attempt encode_datetime me rd r).
Proof.
  unfold sender.attempt.
  apply only_bind;
    [eapply only_mono; [apply from_callers_retry|apply only_run_actions]|intros _].
  apply only_bind.
  { apply only_with_lock; [by left..|].
    apply only_bind; [apply only_get|intros s].
    destruct (sender.paused (sender.self s)); [|apply only_ret].
    eapply only_mono; [apply from_callers_retry|apply only_wait_unpaused_cond]. }
  intros _. apply only_bind;
    [eapply only_mono; [apply from_callers_retry|apply only_run_actions]|intros _].
  apply only_bind.
  { apply only_with_lock; [by left..|].
    apply only_bind; [apply only_get|intros s].
    destruct (sender.skip_current (sender.self s)); [|apply only_ret].
    apply only_bind; [apply only_modify|intros; apply only_ret]. }
  intros [|]; [apply only_ret|].
  apply only_bind; [apply only_emit; right; by left|intros _].
  apply only_bind; [apply only_emit; right; right; by left|intros _].
  apply only_bind;
    [eapply only_mono; [apply from_callers_retry|apply only_run_actions]|intros _].
  destruct (sender.result r); apply only_ret.
Qed.

Lemma only_on_failure rd e : only (from_retry rd) (sender.on_failure rd e).
Proof.
  unfold sender.on_failure.
  apply only_bind; [apply only_emit; do 3 right; left; by exists e|intros _].
  apply only_bind; [apply only_emit; do 4 right; by exists e|intros _].
  eapply only_mono; [apply from_callers_retry|apply only_set_paused].
Qed.

Lemma only_retry me rd rounds :
  only (from_retry rd) (sender.retry encode_datetime me rd rounds).
Proof.
  induction rounds as [|r rounds IH]; simpl; [apply only_block|].
  apply only_bind; [apply only_attempt|].
  intros [| |e]; try apply only_ret.
  destruct (isinstance e [RequestException; APIError]); [|apply only_raise].
  apply only_bind; [apply only_on_failure|done].
Qed.

(** *** Calls of other threads always return *)

Lemma with_lock_eq {S A} l (m : M S A) s :
  with_lock l m s =
  (outcome_of (m s), state_of (m s),
   acquire l :: events_of (m s)
     ++ match outcome_of (m s) with Block _ => [] | _ => [release l] end).
Proof.
  unfold with_lock, outcome_of, state_of, events_of.
  destruct (m s) as [[[a|e|w] s1] t1]; simpl; [done..|].
  by rewrite app_nil_r.
Qed.

Lemma add_request_eq module url data files ts cb s :
  let h := match ts with
           | Some utcnow =>
               setitem data "timestamp" (encode_datetime utcnow) (sender.heap s)
           | None => sender.heap s
           end in
  let rd := mkRequestData (sender.id (sender.self s)) module url data files cb in
  sender.add_request encode_datetime module url data files ts cb s =
  (Val tt,
   sender.mkState h
     (sender.mkSender (sender.id (sender.self s) + 1)
        (sender.paused (sender.self s)) (sender.skip_current (sender.self s))
        (sender.queue (sender.self s) ++ [rd])
        (sender.notify (sender.not_empty (sender.self s)))
        (sender.unpaused (sender.self s))),
   [acquire lock; queue_append rd; release lock; on_request_added rd]).
Proof. destruct ts; reflexivity. Qed.

Lemma set_paused_eq b s :
  sender.set_paused b s =
  (Val tt,
   sender.mkState (sender.heap s)
     (sender.mkSender (sender.id (sender.self s)) b
        (sender.skip_current (sender.self s)) (sender.queue (sender.self s))
        (sender.not_empty (sender.self s))
        (if b then sender.unpaused (sender.self s)
         else sender.notify (sender.unpaused (sender.self s)))),
   [acquire pause_lock; on_paused b; release pause_lock]).
Proof. destruct b; reflexivity. Qed.

Lemma run_action_val a s :
  outcome_of (sender.run_action encode_datetime a s) = Val tt.
Proof.
  destruct a; simpl; [by rewrite add_request_eq|by rewrite set_paused_eq|done..].
Qed.

Lemma run_actions_val acts s :
  outcome_of (sender.run_actions encode_datetime acts s) = Val tt.
Proof.
  revert s. induction acts as [|a acts IH]; intros s; simpl; [done|].
  rewrite bind_eq, run_action_val. apply IH.
Qed.

Lemma popped_from_callers t : Forall from_callers t -> popped t = [].
Proof.
  induction 1 as [|e t He _ IH]; [done|].
  unfold popped in *. by destruct e.
Qed.

Lemma wait_not_empty_cond_outcome me others s :
  outcome_of (sender.wait_not_empty_cond encode_datetime me others s) = Val tt
  \/ outcome_of (sender.wait_not_empty_cond encode_datetime me others s)
     = Block wait_not_empty.
Proof.
  unfold sender.wait_not_empty_cond.
  rewrite bind_eq; simpl. rewrite bind_eq; simpl.
  rewrite bind_eq, run_actions_val. rewrite bind_get.
  case_bool_decide; [by right|by left].
Qed.

(** [await_item] either takes one request or is left waiting for one. *)
Lemma await_item_popped me waits s :
  match outcome_of (sender.await_item encode_datetime me waits s) with
  | Val rd =>
      popped (events_of (sender.await_item encode_datetime me waits s)) = [rd]
  | Exc _ => False
  | Block w =>
      w = wait_not_empty
      /\ popped (events_of (sender.await_item encode_datetime me waits s)) = []
  end.
Proof.
  revert s. induction waits as [|others waits IH]; intros s;
    rewrite await_item_eq;
    destruct (sender.queue (sender.self s)) as [|rd q]; try done;
    rewrite bind_eq.
  - pose proof (only_wait_not_empty_cond me [] s) as Ho.
    apply popped_from_callers in Ho.
    destruct (wait_not_empty_cond_outcome me [] s) as [-> | ->]; simpl.
    + unfold events_of at 1. simpl. by rewrite app_nil_r.
    + done.
  - pose proof (only_wait_not_empty_cond me others s) as Ho.
    apply popped_from_callers in Ho.
    destruct (wait_not_empty_cond_outcome me others s) as [-> | ->];
      [|done].
    specialize (IH (state_of
      (sender.wait_not_empty_cond encode_datetime me others s))).
    unfold outcome_of at 1, events_of at 1. simpl.
    destruct (outcome_of (sender.await_item _ _ _ _)); [|done|];
      unfold popped in *; rewrite omap_app, Ho; simpl; done.
Qed.

(** [process_request] in its three stages. *)
Lemma process_request_eq me waits rounds s :
  let a := sender.await_item encode_datetime me waits s in
  sender.process_request encode_datetime me waits rounds s =
  match outcome_of a with
  | Val rd =>
      let r := sender.retry encode_datetime me rd rounds (state_of a) in
      match outcome_of r with
      | Val _ =>
          (Val tt, state_of r,
           (acquire lock :: events_of a ++ [release lock]) ++ events_of r
             ++ on_request_processed rd :: callback_events rd)
      | Exc e =>
          (Exc e, state_of r,
           (acquire lock :: events_of a ++ [release lock]) ++ events_of r)
      | Block w =>
          (Block w, state_of r,
           (acquire lock :: events_of a ++ [release lock]) ++ events_of r)
      end
  | Exc e => (Exc e, state_of a, acquire lock :: events_of a ++ [release lock])
  | Block w => (Block w, state_of a, acquire lock :: events_of a)
  end.
Proof.
  intros a. unfold sender.process_request. rewrite bind_eq, with_lock_eq.
  fold a.
  change (outcome_of (outcome_of a, ?x, ?y)) with (outcome_of a).
  change (state_of (?x, state_of a, ?y)) with (state_of a).
  change (events_of (?x, ?y, ?z)) with z.
  destruct (outcome_of a) as [rd|e|w]; [|reflexivity|by rewrite app_nil_r].
  rewrite bind_eq.
  destruct (outcome_of (sender.retry _ _ _ _ _)); [|reflexivity..].
  rewrite bind_eq. unfold callback_events.
  destruct (rd_callback rd); reflexivity.
Qed.

Lemma popped_from_retry rd t : Forall (from_retry rd) t -> popped t = [].
Proof.
  induction 1 as [|e t He _ IH]; [done|]. unfold popped in *.
  destruct He as [He|[->|[->|[[x ->]|[x ->]]]]]; [by destruct e|done..].
Qed.

(** A call of [process_request] takes no request when it is left waiting
    for one, and exactly one otherwise. *)
Lemma process_request_popped me waits rounds s :
  let r := sender.process_request encode_datetime me waits rounds s in
  (popped (events_of r) = [] /\ outcome_of r = Block wait_not_empty)
  \/ (exists rd, popped (events_of r) = [rd]).
Proof.
  intros r. subst r. rewrite process_request_eq. cbv zeta.
  pose proof (await_item_popped me waits s) as Ha.
  destruct (outcome_of (sender.await_item _ _ _ _)) as [rd|e|w]; [|done|].
  - right. exists rd.
    pose proof (only_retry me rd rounds
      (state_of (sender.await_item encode_datetime me waits s))) as Hr.
    apply popped_from_retry in Hr.
    destruct (outcome_of (sender.retry encode_datetime me rd rounds _));
      unfold events_of at 1; simpl; unfold popped, callback_events in *;
      rewrite !omap_app, Ha, Hr; by destruct (rd_callback rd).
  - left. destruct Ha as [-> Ha]. unfold events_of at 1. simpl. done.
Qed.

(** A thread that [await_item] leaves blocked found the queue empty and is
    among the waiters of [not_empty]: no [notify] has reached it. *)
Lemma wait_not_empty_cond_waiting me others s :
  let w := sender.wait_not_empty_cond encode_datetime me others s in
  outcome_of w = Block wait_not_empty ->
  me ∈ sender.not_empty (sender.self (state_of w)).
Proof.
  cbv zeta. unfold sender.wait_not_empty_cond.
  rewrite bind_eq; simpl. rewrite bind_eq; simpl.
  rewrite bind_eq, run_actions_val. rewrite bind_get.
  case_bool_decide; [done|]. done.
Qed.

Lemma await_item_waiting me waits s w :
  let a := sender.await_item encode_datetime me waits s in
  outcome_of a = Block w ->
  sender.queue (sender.self s) = []
  /\ me ∈ sender.not_empty (sender.self (state_of a)).
Proof.
  cbv zeta. revert s. induction waits as [|others waits IH]; intros s;
    rewrite await_item_eq;
    destruct (sender.queue (sender.self s)) as [|rd q]; try done;
    rewrite bind_eq.
  - pose proof (wait_not_empty_cond_waiting me [] s) as Hw. cbv zeta in Hw.
    destruct (wait_not_empty_cond_outcome me [] s) as [Ho | Ho].
    + exfalso. revert Ho.
      unfold sender.wait_not_empty_cond, sender.run_actions, bind, modify,
        emit, get, ret. simpl.
      case_bool_decide as Hin; [done|].
      destruct Hin. apply elem_of_app. right. by left.
    + rewrite Ho. triple. intros _. split; [done|]. by apply Hw.
  - pose proof (wait_not_empty_cond_waiting me others s) as Hw.
    cbv zeta in Hw.
    destruct (wait_not_empty_cond_outcome me others s) as [Ho | Ho];
      rewrite Ho; triple.
    + intros H. split; [done|]. by apply (IH _ H).
    + intros _. split; [done|]. by apply Hw.
Qed.

(** A call of [process_request] that finds a request in the queue takes it
    at once, with the queue lock held. *)
Lemma process_request_head me waits rounds s rd q :
  sender.queue (sender.self s) = rd :: q ->
  let r := sender.process_request encode_datetime me waits rounds s in
  popped (events_of r) = [rd]
  /\ exists t,
       events_of r = acquire lock :: queue_popleft rd :: release lock :: t.
Proof.
  intros Hq r. subst r.
  pose proof (process_request_popped me waits rounds s) as Hp.
  cbv zeta in Hp. revert Hp.
  rewrite process_request_eq. cbv zeta. rewrite await_item_eq, Hq. triple.
  cbv beta iota.
  set (lp := sender.retry encode_datetime me rd rounds _).
  intros Hp.
  assert (exists t, events_of
    match outcome_of lp with
    | Val _ =>
        (Val tt, state_of lp,
         (acquire lock :: [queue_popleft rd] ++ [release lock]) ++ events_of lp
           ++ on_request_processed rd :: callback_events rd)
    | Exc e =>
        (@Exc unit e, state_of lp,
         (acquire lock :: [queue_popleft rd] ++ [release lock]) ++ events_of lp)
    | Block w =>
        (Block w, state_of lp,
         (acquire lock :: [queue_popleft rd] ++ [release lock]) ++ events_of lp)
    end = acquire lock :: queue_popleft rd :: release lock :: t) as [t Ht].
  { destruct (outcome_of lp); eexists; reflexivity. }
  split; [|by exists t].
  destruct Hp as [[Hp _]|[rd' Hp]].
  - by rewrite Ht in Hp.
  - rewrite Hp. rewrite Ht in Hp. by injection Hp as ->.
Qed.

(** A call of [process_request] that is left waiting for a request took
    none, found the queue empty and is among the waiters of [not_empty]. *)
Lemma process_request_waiting me waits rounds s :
  let r := sender.process_request encode_datetime me waits rounds s in
  outcome_of r = Block wait_not_empty ->
  popped (events_of r) = [] ->
  sender.queue (sender.self s) = []
  /\ me ∈ sender.not_empty (sender.self (state_of r)).
Proof.
  cbv zeta. intros Ho Hp.
  destruct (sender.queue (sender.self s)) as [|rd q] eqn:Hq.
  - split; [done|]. revert Ho Hp. rewrite process_request_eq. cbv zeta.
    pose proof (await_item_popped me waits s) as Ha.
    pose proof (await_item_waiting me waits s) as Hw. cbv zeta in Hw.
    destruct (outcome_of (sender.await_item _ _ _ _)) as [rd|e|w]; [|done|].
    + pose proof (only_retry me rd rounds
        (state_of (sender.await_item encode_datetime me waits s))) as Hr.
      apply popped_from_retry in Hr. intros _.
      destruct (outcome_of (sender.retry encode_datetime me rd rounds _));
        unfold events_of at 1; simpl; unfold popped, callback_events in *;
        rewrite !omap_app, Ha, Hr; by destruct (rd_callback rd).
    + triple. intros _ _. by apply (Hw w).
  - destruct (process_request_head me waits rounds s rd q Hq) as [Hp' _].
    cbv zeta in Hp'. congruence.
Qed.

(** C1.  For every sequence of calls on a new Sender -- [add_request],
    [process_request], [set_paused], [set_skip_current], by whichever threads
    and interleaved at will -- the identifiers given to the requests are, in
    the order in which they are put in the queue, 1, 2, 3, ...: consecutive,
    strictly increasing and never reused; what has been taken from the queue,
    followed by what is still in it, is the sequence of the requests in the
    order in which they were put in, so requests leave in the order of their
    identifiers.  Each [add_request] takes the identifier and appends the
    request with the queue lock held and tells the observers once the lock is
    released.  Each [process_request] that finds the queue not empty takes
    one request, its head, at once and with the queue lock held, and leaves
    the rest of the queue followed by what was appended meanwhile.  Each
    [process_request] that finds the queue empty either takes one request,
    the first that is appended while it waits, or takes none: then it is left
    waiting, still among the waiters of [not_empty], and the queue holds
    whatever was appended. *)
Theorem C1_ids_consecutive_and_fifo (h : Py.heap) (cs : list sender.call) :
  let t := (sender.run_calls encode_datetime cs (sender.init h)).2 in
  let s := (sender.run_calls encode_datetime cs (sender.init h)).1 in
  rd_id <$> appended t = seqZ 1 (Z.of_nat (length (appended t)))
  /\ NoDup (rd_id <$> appended t)
  /\ popped t ++ sender.queue (sender.self s) = appended t
  /\ (forall module url data files ts cb s0,
        let rd := mkRequestData (sender.id (sender.self s0)) module url data
                    files cb in
        let r := sender.add_request encode_datetime module url data files ts
                   cb s0 in
        events_of r
          = [acquire lock; queue_append rd; release lock; on_request_added rd]
        /\ sender.id (sender.self (state_of r))
           = (sender.id (sender.self s0) + 1)%Z
        /\ sender.queue (sender.self (state_of r))
           = sender.queue (sender.self s0) ++ [rd])
  /\ (forall me waits rounds s0,
        let r := sender.process_request encode_datetime me waits rounds s0 in
        match sender.queue (sender.self s0) with
        | rd :: q =>
            popped (events_of r) = [rd]
            /\ (exists t0,
                  events_of r
                  = acquire lock :: queue_popleft rd :: release lock :: t0)
            /\ sender.queue (sender.self (state_of r))
               = q ++ appended (events_of r)
        | [] =>
            (outcome_of r = Block wait_not_empty
             /\ popped (events_of r) = []
             /\ me ∈ sender.not_empty (sender.self (state_of r))
             /\ sender.queue (sender.self (state_of r))
                = appended (events_of r))
            \/ (exists rd q,
                  popped (events_of r) = [rd]
                  /\ appended (events_of r) = rd :: q
                  /\ sender.queue (sender.self (state_of r)) = q)
        end).
Proof.
  intros t s.
  destruct (queue_effect_run_calls cs (sender.init h)) as (Hi & _ & Hq).
  fold t s in Hi, Hq. simpl in Hi, Hq.
  split; [done|]. split; [rewrite Hi; apply NoDup_seqZ|]. split; [done|].
  split.
  - intros. subst r. by rewrite add_request_eq.
  - intros me waits rounds s0 r.
    destruct (respects_process_request me waits rounds s0) as (_ & _ & Hq0).
    fold r in Hq0.
    destruct (sender.queue (sender.self s0)) as [|rd q] eqn:Hs0.
    + destruct (process_request_popped me waits rounds s0) as [[Hp Ho]|[rd Hp]];
        fold r in Hp; rewrite Hp in Hq0; simpl in Hq0.
      * left. fold r in Ho. split; [done|]. split; [done|]. split; [|done].
        by apply (process_request_waiting me waits rounds s0).
      * right. exists rd, (sender.queue (sender.self (state_of r))).
        by rewrite Hq0.
    + destruct (process_request_head me waits rounds s0 rd q Hs0) as [Hp Ht].
      fold r in Hp, Ht. split; [done|]. split; [done|].
      rewrite Hp in Hq0. simpl in Hq0. by injection Hq0.
Qed.

End queue_order.

(** ** Pausing *)



(** ** The retry loop *)

Section retry_loop.

Variable encode_datetime : datetime -> value.

Lemma on_failure_eq rd e s :
  sender.on_failure rd e s =
  (Val tt, sender.set_paused_flag true s,
   [log "sender" exception ("Could not send request: " +:+ exc_msg e);
    on_error rd e (from_exception e);
    acquire pause_lock; on_paused true; release pause_lock]).
Proof. reflexivity. Qed.

Lemma retry_failed_eq me rd r rounds s s1 t1 e :
  sender.attempt encode_datetime me rd r s = (Val (sender.failed e), s1, t1) ->
  isinstance e [RequestException; APIError] = true ->
  sender.retry encode_datetime me rd (r :: rounds) s =
  (outcome_of (sender.retry encode_datetime me rd rounds
                 (sender.set_paused_flag true s1)),
   state_of (sender.retry encode_datetime me rd rounds
               (sender.set_paused_flag true s1)),
   t1 ++ events_of (sender.on_failure rd e s1)
      ++ events_of (sender.retry encode_datetime me rd rounds
                      (sender.set_paused_flag true s1))).
Proof.
  intros Ha He. simpl. rewrite bind_eq, Ha. triple. cbv beta iota.
  rewrite He, bind_eq, on_failure_eq. triple. reflexivity.
Qed.

Lemma submissions_from_retry rd t :
  Forall (from_retry rd) t ->
  Forall (eq (rd_url rd, rd_data rd, rd_files rd)) (submissions t).
Proof.
  induction 1 as [|e t He _ IH]; [constructor|]. unfold submissions in *.
  destruct He as [He|[->|[->|[[x ->]|[x ->]]]]]; simpl; try done.
  - by destruct e.
  - by constructor.
Qed.

Lemma errors_from_retry rd t :
  Forall (from_retry rd) t -> Forall (eq rd) (errors t).
Proof.
  induction 1 as [|e t He _ IH]; [constructor|]. unfold errors in *.
  destruct He as [He|[->|[->|[[x ->]|[x ->]]]]]; simpl; try done.
  - by destruct e.
  - by constructor.
Qed.

(** C2.  When a pass of the retry loop on the request [rd] gets as far as
    [api.create] and that raises [e], a [RequestException] or an [APIError],
    the loop logs the failure, gives [rd], [e] and the traceback made from [e]
    to the error observers, pauses the queue through [set_paused(True)], and
    goes on with the loop on the same [rd]: what the loop does from there is
    what the loop on [rd] does from the state so left, in which the queue is
    paused and holds what it held.  Over the whole loop, whatever the
    environment does, every submission is of [rd]'s url, data and files,
    every error reported is about [rd], and nothing is taken from the
    queue. *)
Theorem C2_failure_pauses_and_retries_same_item me rd r rounds s s1 t1 e :
  sender.attempt encode_datetime me rd r s = (Val (sender.failed e), s1, t1) ->
  isinstance e [RequestException; APIError] = true ->
  let s1' := sender.set_paused_flag true s1 in
  let again := sender.retry encode_datetime me rd rounds s1' in
  let whole := sender.retry encode_datetime me rd (r :: rounds) s in
  whole =
    (outcome_of again, state_of again,
     t1 ++ [log "sender" exception ("Could not send request: " +:+ exc_msg e);
            on_error rd e (from_exception e);
            acquire pause_lock; on_paused true; release pause_lock]
        ++ events_of again)
  /\ sender.paused (sender.self s1') = true
  /\ sender.queue (sender.self s1') = sender.queue (sender.self s1)
  /\ sender.heap s1' = sender.heap s1
  /\ Forall (eq (rd_url rd, rd_data rd, rd_files rd))
       (submissions (events_of whole))
  /\ Forall (eq rd) (errors (events_of whole))
  /\ popped (events_of whole) = [].
Proof.
  intros Ha He s1' again whole. split; [|repeat split].
  - subst whole. by rewrite (retry_failed_eq _ _ _ _ _ _ _ _ Ha He).
  - apply submissions_from_retry, only_retry.
  - apply errors_from_retry, only_retry.
  - eapply popped_from_retry, only_retry.
Qed.

End retry_loop.

(** C2 at work: the first submission of the sample request fails with an
    [APIError], the queue is unpaused during the wait that follows, and the
    second submission goes through. *)
Lemma C2_failure_then_success :
  let s := sender.init sample_heap in
  outcome_of (sender.retry sample_encode 0 sample_request
                [failing_round; resumed_round] s) = Val sender.submitted
  /\ submissions (events_of (sender.retry sample_encode 0 sample_request
                               [failing_round; resumed_round] s))
     = [("/gps", 1%positive, None); ("/gps", 1%positive, None)]
  /\ errors (events_of (sender.retry sample_encode 0 sample_request
                          [failing_round; resumed_round] s))
     = [sample_request].
Proof.
  destruct (C2_failure_pauses_and_retries_same_item sample_encode 0
              sample_request
              failing_round [resumed_round] (sender.init sample_heap)
              (state_of (sender.attempt sample_encode 0 sample_request
                           failing_round (sender.init sample_heap)))
              (events_of (sender.attempt sample_encode 0 sample_request
                            failing_round (sender.init sample_heap)))
              (raise_new APIError "503") eq_refl eq_refl)
    as (Hw & _).
  cbv zeta. rewrite Hw. vm_compute. repeat split.
Defined.

(** ** How the retry loop is left *)

Section loop_exit.

Variable encode_datetime : datetime -> value.

Lemma wait_unpaused_cond_outcome me rd others s :
  outcome_of (sender.wait_unpaused_cond encode_datetime me rd others s) = Val tt
  \/ outcome_of (sender.wait_unpaused_cond encode_datetime me rd others s)
     = Block (wait_unpaused rd).
Proof.
  unfold sender.wait_unpaused_cond.
  rewrite bind_eq; simpl. rewrite bind_eq; simpl.
  rewrite bind_eq, run_actions_val. rewrite bind_get.
  case_bool_decide; [by right|by left].
Qed.

(** The pause check returns or leaves the thread waiting to be unpaused. *)
Lemma pause_check_outcome me rd others s :
  let m :=
    with_lock pause_lock (
      s <- get ;;
      if sender.paused (sender.self s)
      then sender.wait_unpaused_cond encode_datetime me rd others
      else ret tt) in
  outcome_of (m s) = Val tt \/ outcome_of (m s) = Block (wait_unpaused rd).
Proof.
  intros m. subst m. rewrite with_lock_eq, bind_get. triple.
  destruct (sender.paused (sender.self s)); [|by left].
  apply wait_unpaused_cond_outcome.
Qed.

Lemma skip_check_eq s :
  with_lock lock (
    s <- get ;;
    if sender.skip_current (sender.self s)
    then modify (sender.set_skip_current_flag false) ;;; ret true
    else ret false) s
  = (Val (sender.skip_current (sender.self s)),
     if sender.skip_current (sender.self s)
     then sender.set_skip_current_flag false s else s,
     [acquire lock; release lock]).
Proof.
  rewrite with_lock_eq, bind_get.
  destruct (sender.skip_current (sender.self s)); reflexivity.
Qed.

Lemma submit_eq rd (r : sender.round) s :
  (emit (on_request_processing rd) ;;;
   emit (api_create (rd_url rd) (rd_data rd) (rd_files rd)) ;;;
   sender.run_actions encode_datetime (sender.during_create r) ;;;
   match sender.result r with
   | None => ret sender.created
   | Some exc_value => ret (sender.failed exc_value)
   end) s
  = (Val match sender.result r with
         | None => sender.created
         | Some exc_value => sender.failed exc_value
         end,
     state_of (sender.run_actions encode_datetime (sender.during_create r) s),
     on_request_processing rd
       :: api_create (rd_url rd) (rd_data rd) (rd_files rd)
       :: events_of (sender.run_actions encode_datetime
                       (sender.during_create r) s)).
Proof.
  rewrite !bind_emit. triple.
  rewrite (bind_val _ _ _ tt) by apply run_actions_val. triple.
  destruct (sender.result r); unfold ret; triple; by rewrite app_nil_r.
Qed.

(** How one pass ends: waiting to be unpaused; or at [break], with the skip
    flag cleared and the skip check the last thing done; or past
    [api.create], called once on the request, with what it gave. *)
Lemma attempt_cases me rd r s :
  let a := sender.attempt encode_datetime me rd r s in
  outcome_of a = Block (wait_unpaused rd)
  \/ (outcome_of a = Val sender.broke
      /\ sender.skip_current (sender.self (state_of a)) = false
      /\ exists t0, events_of a = t0 ++ [acquire lock; release lock])
  \/ (outcome_of a = Val match sender.result r with
                         | None => sender.created
                         | Some exc_value => sender.failed exc_value
                         end
      /\ exists t0 t1,
           events_of a
             = t0 ++ on_request_processing rd
                  :: api_create (rd_url rd) (rd_data rd) (rd_files rd) :: t1
           /\ Forall from_callers t1).
Proof.
  intros a. subst a. unfold sender.attempt.
  rewrite bind_eq, run_actions_val.
  set (s1 := state_of (sender.run_actions _ (sender.before_pause r) s)).
  set (t1 := events_of (sender.run_actions _ (sender.before_pause r) s)).
  rewrite bind_eq.
  destruct (pause_check_outcome me rd (sender.while_paused r) s1)
    as [-> | ->]; [|by left].
  right.
  match goal with
  | |- context [state_of (with_lock pause_lock ?m s1)] =>
      set (s2 := state_of (with_lock pause_lock m s1));
      set (t2 := events_of (with_lock pause_lock m s1))
  end.
  rewrite bind_eq, run_actions_val.
  set (s3 := state_of (sender.run_actions _ (sender.before_skip r) s2)).
  set (t3 := events_of (sender.run_actions _ (sender.before_skip r) s2)).
  rewrite bind_eq, skip_check_eq. triple.
  destruct (sender.skip_current (sender.self s3)) eqn:Hskip.
  - left. unfold ret. triple. repeat split.
    exists (t1 ++ t2 ++ t3). by rewrite !app_nil_r, <- !app_assoc.
  - right. rewrite submit_eq. triple. split; [done|].
    eexists (t1 ++ t2 ++ t3 ++ [acquire lock; release lock]), _.
    split; [by rewrite <- !app_assoc|].
    apply only_run_actions.
Qed.

(** *** The consumer is woken when the queue is unpaused *)

Lemma run_action_unpaused a s :
  sender.unpaused (sender.self
    (state_of (sender.run_action encode_datetime a s)))
  = match a with
    | sender.do_set_paused false => drop 1 (sender.unpaused (sender.self s))
    | _ => sender.unpaused (sender.self s)
    end.
Proof. destruct a as [? ? ? ? [?|] ?|[|]| |]; reflexivity. Qed.

(** Calls of other threads only remove waiters from [unpaused], oldest
    first, and remove at least one, if there is one, when [set_paused false]
    is among them. *)
Lemma run_actions_unpaused acts s :
  exists k,
    sender.unpaused (sender.self
      (state_of (sender.run_actions encode_datetime acts s)))
    = drop k (sender.unpaused (sender.self s))
    /\ (sender.do_set_paused false ∈ acts -> 1 <= k).
Proof.
  revert s. induction acts as [|a acts IH]; intros s.
  - exists 0. split; [done|]. by intros ?%elem_of_nil.
  - cbn [sender.run_actions].
    rewrite (bind_val _ _ _ tt) by apply run_action_val. triple.
    destruct (IH (state_of (sender.run_action encode_datetime a s)))
      as (k & -> & Hk).
    rewrite run_action_unpaused.
    destruct a as [? ? ? ? ? ?|[|]| |];
      first
        [ exists k; split; [done|intros [?|?]%elem_of_cons; [done|auto]]
        | exists (k + 1); rewrite drop_drop, (Nat.add_comm 1 k);
          split; [done|lia] ].
Qed.

Lemma run_actions_no_waiter acts s :
  sender.unpaused (sender.self s) = [] ->
  sender.unpaused (sender.self
    (state_of (sender.run_actions encode_datetime acts s))) = [].
Proof.
  intros Hs. destruct (run_actions_unpaused acts s) as (k & -> & _).
  by rewrite Hs, drop_nil.
Qed.

Lemma wait_unpaused_cond_woken me rd others s :
  sender.unpaused (sender.self s) = [] ->
  sender.do_set_paused false ∈ others ->
  let w := sender.wait_unpaused_cond encode_datetime me rd others s in
  outcome_of w = Val tt /\ sender.unpaused (sender.self (state_of w)) = [].
Proof.
  intros Hs Hin w. subst w. unfold sender.wait_unpaused_cond.
  rewrite bind_eq. unfold modify at 1. triple. cbv beta iota.
  rewrite bind_emit. triple.
  rewrite (bind_val _ _ _ tt) by apply run_actions_val. triple.
  rewrite bind_get.
  match goal with
  | |- context [sender.run_actions _ _ ?s0] => set (s1 := s0)
  end.
  destruct (run_actions_unpaused others s1) as (k & Hk & Hge).
  assert (sender.unpaused (sender.self
            (state_of (sender.run_actions encode_datetime others s1))) = [])
    as Hnil.
  { rewrite Hk. subst s1. simpl. rewrite Hs. simpl.
    specialize (Hge Hin). destruct k; [lia|]. simpl. apply drop_nil. }
  rewrite Hnil. rewrite bool_decide_false by apply not_elem_of_nil.
  unfold emit. triple. done.
Qed.

Lemma pause_check_woken me rd others s :
  sender.unpaused (sender.self s) = [] ->
  sender.do_set_paused false ∈ others ->
  let m :=
    with_lock pause_lock (
      s <- get ;;
      if sender.paused (sender.self s)
      then sender.wait_unpaused_cond encode_datetime me rd others
      else ret tt) in
  outcome_of (m s) = Val tt
  /\ sender.unpaused (sender.self (state_of (m s))) = [].
Proof.
  intros Hs Hin m. subst m. rewrite with_lock_eq, bind_get. triple.
  destruct (sender.paused (sender.self s)); [|done].
  by apply wait_unpaused_cond_woken.
Qed.

(** A pass in which the queue is unpaused while the consumer waits does not
    leave it waiting. *)
Lemma attempt_progress me rd r s :
  sender.unpaused (sender.self s) = [] ->
  sender.do_set_paused false ∈ sender.while_paused r ->
  let a := sender.attempt encode_datetime me rd r s in
  (exists x, outcome_of a = Val x)
  /\ sender.unpaused (sender.self (state_of a)) = [].
Proof.
  intros Hs Hin a. subst a. unfold sender.attempt.
  rewrite (bind_val _ _ _ tt) by apply run_actions_val. triple.
  pose proof (run_actions_no_waiter (sender.before_pause r) s Hs) as H1.
  set (s1 := state_of (sender.run_actions _ (sender.before_pause r) s)) in *.
  destruct (pause_check_woken me rd (sender.while_paused r) s1 H1 Hin)
    as [Ho H2].
  rewrite (bind_val _ _ _ tt) by exact Ho. triple.
  match goal with
  | |- context [state_of (with_lock pause_lock ?m s1)] =>
      set (s2 := state_of (with_lock pause_lock m s1)) in *
  end.
  rewrite (bind_val _ _ _ tt) by apply run_actions_val. triple.
  pose proof (run_actions_no_waiter (sender.before_skip r) s2 H2) as H3.
  set (s3 := state_of (sender.run_actions _ (sender.before_skip r) s2)) in *.
  rewrite bind_eq, skip_check_eq. triple.
  destruct (sender.skip_current (sender.self s3)) eqn:Hskip.
  - unfold ret. triple. split; [by eexists|done].
  - rewrite submit_eq. triple. split; [by eexists|].
    by apply run_actions_no_waiter.
Qed.

(** One turn of the loop, by how its pass ends. *)
Lemma retry_cons_eq me rd r rounds s :
  let a := sender.attempt encode_datetime me rd r s in
  sender.retry encode_datetime me rd (r :: rounds) s =
  match outcome_of a with
  | Val sender.broke => (Val sender.skipped, state_of a, events_of a)
  | Val sender.created => (Val sender.submitted, state_of a, events_of a)
  | Val (sender.failed e) =>
      if isinstance e [RequestException; APIError] then
        let again := sender.retry encode_datetime me rd rounds
                       (sender.set_paused_flag true (state_of a)) in
        (outcome_of again, state_of again,
         events_of a ++ events_of (sender.on_failure rd e (state_of a))
           ++ events_of again)
      else (Exc e, state_of a, events_of a)
  | Exc e => (Exc e, state_of a, events_of a)
  | Block w => (Block w, state_of a, events_of a)
  end.
Proof.
  intros a. cbn [sender.retry]. rewrite bind_eq. fold a.
  destruct (outcome_of a) as [[| |e]|e|w]; try reflexivity.
  - unfold ret. triple. by rewrite app_nil_r.
  - unfold ret. triple. by rewrite app_nil_r.
  - destruct (isinstance e [RequestException; APIError]).
    + rewrite bind_eq, on_failure_eq. triple. reflexivity.
    + unfold raise. triple. by rewrite app_nil_r.
Qed.

(** The loop returns only past a submission that went through, or at
    [break]. *)
Lemma retry_exit_cases me rd rounds s ex :
  let loop := sender.retry encode_datetime me rd rounds s in
  outcome_of loop = Val ex ->
  (ex = sender.submitted
   /\ (exists r, r ∈ rounds /\ sender.result r = None)
   /\ exists t0 t1,
        events_of loop
          = t0 ++ on_request_processing rd
               :: api_create (rd_url rd) (rd_data rd) (rd_files rd) :: t1
        /\ Forall from_callers t1)
  \/ (ex = sender.skipped
      /\ sender.skip_current (sender.self (state_of loop)) = false
      /\ exists t0, events_of loop = t0 ++ [acquire lock; release lock]).
Proof.
  revert s. induction rounds as [|r rounds IH]; intros s loop; subst loop;
    [done|].
  rewrite retry_cons_eq. cbv zeta.
  destruct (attempt_cases me rd r s) as [Hb|[(Ho & Hs & t0 & Ht)|(Ho & Ht)]].
  - by rewrite Hb.
  - rewrite Ho. triple. intros [= <-]. right. eauto.
  - rewrite Ho. set (a := sender.attempt encode_datetime me rd r s) in *.
    destruct (sender.result r) as [e|] eqn:Hr.
    + destruct (isinstance e [RequestException; APIError]); [|done].
      triple. intros Hex. set (onf := events_of (sender.on_failure _ _ _)).
      destruct (IH _ Hex) as [(-> & (r' & Hin & Hr') & t0 & t1 & -> & Hc)
                             |(-> & Hs & t0 & ->)].
      * left. split; [done|]. split; [exists r'; split; [by right|done]|].
        exists (events_of a ++ onf ++ t0), t1.
        split; [|done]. by rewrite <- !app_assoc.
      * right. split; [done|]. split; [done|].
        exists (events_of a ++ onf ++ t0). by rewrite <- !app_assoc.
    + triple. intros [= <-]. left. split; [done|].
      split; [exists r; split; [by left|done]|]. done.
Qed.

(** When every wait of the consumer sees the queue unpaused, every failure
    of [api.create] is one the method catches, and some submission goes
    through, the loop returns. *)
Lemma retry_terminates me rd rounds s :
  sender.unpaused (sender.self s) = [] ->
  (forall r, r ∈ rounds -> sender.do_set_paused false ∈ sender.while_paused r) ->
  (forall r e, r ∈ rounds -> sender.result r = Some e ->
               isinstance e [RequestException; APIError] = true) ->
  (exists r, r ∈ rounds /\ sender.result r = None) ->
  exists ex, outcome_of (sender.retry encode_datetime me rd rounds s) = Val ex.
Proof.
  revert s. induction rounds as [|r rounds IH]; intros s Hs Hw Hc (r0 & Hin & H0).
  { by apply elem_of_nil in Hin. }
  rewrite retry_cons_eq. cbv zeta.
  destruct (attempt_progress me rd r s Hs (Hw r ltac:(by left)))
    as [[x Hx] Hs'].
  destruct (attempt_cases me rd r s) as [Hb|[(Ho & _)|(Ho & _)]].
  - rewrite Hb in Hx. done.
  - rewrite Ho. by eexists.
  - rewrite Ho. destruct (sender.result r) as [e|] eqn:Hr; [|by eexists].
    rewrite (Hc r e ltac:(by left) Hr). triple.
    apply IH.
    + done.
    + intros r' Hr'. apply Hw. by right.
    + intros r' e' Hr'. apply Hc. by right.
    + apply elem_of_cons in Hin as [->|Hin]; [congruence|eauto].
Qed.

(** *** What comes before the end of [process_request] is quiet *)

Lemma quiet_silent t : Forall quiet t -> processed t = [] /\ callbacks t = [].
Proof.
  induction 1 as [|e t He _ [IHp IHc]]; [done|].
  unfold processed, callbacks in *. by destruct e.
Qed.

Lemma from_callers_quiet e : from_callers e -> quiet e.
Proof. by destruct e. Qed.

Lemma from_retry_quiet rd e : from_retry rd e -> quiet e.
Proof.
  intros [He|[->|[->|[[x ->]|[x ->]]]]]; [by apply from_callers_quiet|done..].
Qed.

Lemma only_await_item me waits :
  only quiet (sender.await_item encode_datetime me waits).
Proof.
  induction waits as [|others waits IH]; intros s; rewrite await_item_eq;
    destruct (sender.queue (sender.self s)) as [|rd q].
  - apply only_bind; [|intros; apply only_block].
    eapply only_mono; [apply from_callers_quiet|apply only_wait_not_empty_cond].
  - by repeat constructor.
  - apply only_bind; [|done].
    eapply only_mono; [apply from_callers_quiet|apply only_wait_not_empty_cond].
  - by repeat constructor.
Qed.

Lemma wait_not_empty_cond_state me others s :
  state_of (sender.wait_not_empty_cond encode_datetime me others s)
  = state_of (sender.run_actions encode_datetime others
                (sender.set_not_empty
                   (sender.not_empty (sender.self s) ++ [me]) s)).
Proof.
  unfold sender.wait_not_empty_cond.
  rewrite bind_eq. unfold modify at 1. triple. cbv beta iota.
  rewrite bind_emit. triple.
  rewrite (bind_val _ _ _ tt) by apply run_actions_val. triple.
  rewrite bind_get. by case_bool_decide.
Qed.

Lemma await_item_no_waiter me waits s :
  sender.unpaused (sender.self s) = [] ->
  sender.unpaused (sender.self
    (state_of (sender.await_item encode_datetime me waits s))) = [].
Proof.
  assert (forall others s,
    sender.unpaused (sender.self s) = [] ->
    sender.unpaused (sender.self (state_of
      (sender.wait_not_empty_cond encode_datetime me others s))) = []) as Hw.
  { intros others s0 Hs0. rewrite wait_not_empty_cond_state.
    by apply run_actions_no_waiter. }
  revert s. induction waits as [|others waits IH]; intros s Hs;
    rewrite await_item_eq;
    destruct (sender.queue (sender.self s)) as [|rd q]; try done;
    rewrite bind_eq.
  - destruct (wait_not_empty_cond_outcome encode_datetime me [] s) as [-> | ->]; triple;
      by apply Hw.
  - destruct (wait_not_empty_cond_outcome encode_datetime me others s) as [-> | ->]; triple;
      [apply IH|]; by apply Hw.
Qed.

(** The loop is left by an exception only when [api.create] raised one that
    the [except] clause does not name, in the last pass made; it is left
    unfinished only waiting to be unpaused or with passes still to come. *)
Lemma retry_leave_cases me rd rounds s :
  let loop := sender.retry encode_datetime me rd rounds s in
  match outcome_of loop with
  | Val _ => True
  | Exc e =>
      isinstance e [RequestException; APIError] = false
      /\ (exists r, r ∈ rounds /\ sender.result r = Some e)
      /\ exists t0 t1,
           events_of loop
             = t0 ++ on_request_processing rd
                  :: api_create (rd_url rd) (rd_data rd) (rd_files rd) :: t1
           /\ Forall from_callers t1
  | Block w => w = wait_unpaused rd \/ w = retrying rd
  end.
Proof.
  revert s. induction rounds as [|r rounds IH]; intros s loop; subst loop;
    [by right|].
  rewrite retry_cons_eq. cbv zeta.
  destruct (attempt_cases me rd r s)
    as [Hb|[(Ho & _)|(Ho & t0 & t1 & Ht & Hc)]].
  - rewrite Hb. by left.
  - by rewrite Ho.
  - rewrite Ho. set (a := sender.attempt encode_datetime me rd r s) in *.
    destruct (sender.result r) as [e|] eqn:Hr; [|done].
    destruct (isinstance e [RequestException; APIError]) eqn:Hi.
    + triple. set (onf := events_of (sender.on_failure _ _ _)).
      specialize (IH (sender.set_paused_flag true (state_of a))).
      cbv zeta in IH.
      destruct (outcome_of (sender.retry encode_datetime me rd rounds _))
        as [ex|e'|w]; [done| |done].
      destruct IH as (Hi' & (r' & Hin & Hr') & t0' & t1' & -> & Hc').
      split; [done|]. split; [exists r'; split; [by right|done]|].
      exists (events_of a ++ onf ++ t0'), t1'.
      split; [|done]. by rewrite <- !app_assoc.
    + triple. split; [done|]. split; [exists r; split; [by left|done]|].
      by exists t0, t1.
Qed.

(** When every wait of the consumer sees the queue unpaused and, in some
    pass, [api.create] returns or raises an exception that the method does
    not catch, the loop is left: it returns or raises. *)
Lemma retry_leaves me rd rounds s :
  sender.unpaused (sender.self s) = [] ->
  (forall r, r ∈ rounds -> sender.do_set_paused false ∈ sender.while_paused r) ->
  (exists r, r ∈ rounds
             /\ forall e, sender.result r = Some e ->
                          isinstance e [RequestException; APIError] = false) ->
  forall w, outcome_of (sender.retry encode_datetime me rd rounds s) <> Block w.
Proof.
  revert s. induction rounds as [|r rounds IH]; intros s Hs Hw (r0 & Hin & H0).
  { by apply elem_of_nil in Hin. }
  rewrite retry_cons_eq. cbv zeta.
  destruct (attempt_progress me rd r s Hs (Hw r ltac:(by left)))
    as [[x Hx] Hs'].
  destruct (attempt_cases me rd r s) as [Hb|[(Ho & _)|(Ho & _)]].
  - rewrite Hb in Hx. done.
  - by rewrite Ho.
  - rewrite Ho. destruct (sender.result r) as [e|] eqn:Hr; [|done].
    destruct (isinstance e [RequestException; APIError]) eqn:Hi; [|done].
    triple. apply IH.
    + done.
    + intros r' Hr'. apply Hw. by right.
    + apply elem_of_cons in Hin as [->|Hin]; [|eauto].
      rewrite (H0 e Hr) in Hi. done.
Qed.

(** C6, amended.  Take a call of [process_request] that pops the request
    [rd]; it pops that one request and no other.  Its retry loop is left in
    three ways, not two.  It returns past a call of [api.create] on [rd] that
    returned, or at [break], the skip check being the last thing it did, with
    [skip_current] cleared and nothing submitted after.  Or [api.create]
    raises an exception that is neither a [RequestException] nor an
    [APIError]: the [except] clause does not catch it, it leaves the loop and
    [process_request] with it, and the request, already popped, is neither
    retried nor announced as processed.  Whenever the loop returns, the call
    returns, and it ends with [on_request_processed rd] followed by the
    callback of [rd] if it has one: in the whole call the processed observers
    are notified once, for [rd], and the callback is invoked once.  While the
    loop has not returned, and when it is left by an exception, neither has
    happened.  A loop that is not left is waiting to be unpaused or has
    passes still to make.  The loop does return when no other thread is
    waiting to be unpaused, every wait of the consumer sees
    [set_paused(False)], [api.create] raises nothing but [RequestException]
    and [APIError], and it returns in some pass; and it is left, by a return
    or by an exception, as soon as in some pass [api.create] returns or
    raises anything else. *)
Theorem C6_loop_exits_and_processed_once me waits rounds s rd :
  outcome_of (sender.await_item encode_datetime me waits s) = Val rd ->
  let s0 := state_of (sender.await_item encode_datetime me waits s) in
  let loop := sender.retry encode_datetime me rd rounds s0 in
  let call := sender.process_request encode_datetime me waits rounds s in
  (forall ex, outcome_of loop = Val ex ->
     (ex = sender.submitted
      /\ (exists r, r ∈ rounds /\ sender.result r = None)
      /\ exists t0 t1,
           events_of loop
             = t0 ++ on_request_processing rd
                  :: api_create (rd_url rd) (rd_data rd) (rd_files rd) :: t1
           /\ Forall from_callers t1)
     \/ (ex = sender.skipped
         /\ sender.skip_current (sender.self (state_of loop)) = false
         /\ exists t0, events_of loop = t0 ++ [acquire lock; release lock]))
  /\ (forall ex, outcome_of loop = Val ex ->
        outcome_of call = Val tt
        /\ (exists t0,
              events_of call
                = t0 ++ on_request_processed rd :: callback_events rd)
        /\ processed (events_of call) = [rd]
        /\ callbacks (events_of call)
           = match rd_callback rd with Some c => [c] | None => [] end)
  /\ ((forall ex, outcome_of loop <> Val ex) ->
        processed (events_of call) = [] /\ callbacks (events_of call) = [])
  /\ (sender.unpaused (sender.self s) = [] ->
      (forall r, r ∈ rounds ->
                 sender.do_set_paused false ∈ sender.while_paused r) ->
      (forall r e, r ∈ rounds -> sender.result r = Some e ->
                   isinstance e [RequestException; APIError] = true) ->
      (exists r, r ∈ rounds /\ sender.result r = None) ->
      exists ex, outcome_of loop = Val ex)
  /\ (forall e, outcome_of loop = Exc e ->
        isinstance e [RequestException; APIError] = false
        /\ (exists r, r ∈ rounds /\ sender.result r = Some e)
        /\ (exists t0 t1,
              events_of loop
                = t0 ++ on_request_processing rd
                     :: api_create (rd_url rd) (rd_data rd) (rd_files rd) :: t1
              /\ Forall from_callers t1)
        /\ outcome_of call = Exc e
        /\ state_of call = state_of loop
        /\ processed (events_of call) = []
        /\ callbacks (events_of call) = [])
  /\ (forall w, outcome_of loop = Block w ->
        (w = wait_unpaused rd \/ w = retrying rd)
        /\ outcome_of call = Block w)
  /\ popped (events_of call) = [rd]
  /\ (sender.unpaused (sender.self s) = [] ->
      (forall r, r ∈ rounds ->
                 sender.do_set_paused false ∈ sender.while_paused r) ->
      (exists r, r ∈ rounds
                 /\ forall e, sender.result r = Some e ->
                      isinstance e [RequestException; APIError] = false) ->
      forall w, outcome_of loop <> Block w).
Proof.
  intros Ha s0 loop call.
  assert (processed (acquire lock
            :: events_of (sender.await_item encode_datetime me waits s)
            ++ [release lock]) = []
          /\ callbacks (acquire lock
            :: events_of (sender.await_item encode_datetime me waits s)
            ++ [release lock]) = []) as [Hp1 Hc1].
  { apply quiet_silent. constructor; [done|]. apply Forall_app. split.
    - apply only_await_item.
    - by repeat constructor. }
  destruct (quiet_silent (events_of loop)) as [Hp2 Hc2].
  { eapply Forall_impl; [apply only_retry|apply from_retry_quiet]. }
  assert (popped (acquire lock
            :: events_of (sender.await_item encode_datetime me waits s)
            ++ [release lock]) = [rd]) as Hpop1.
  { pose proof (await_item_popped encode_datetime me waits s) as Hpop.
    rewrite Ha in Hpop. unfold popped in *. simpl.
    by rewrite omap_app, Hpop. }
  assert (popped (events_of loop) = []) as Hpop2.
  { apply popped_from_retry with rd. apply only_retry. }
  pose proof (process_request_eq encode_datetime me waits rounds s) as Heq.
  cbv zeta in Heq. rewrite Ha in Heq. fold s0 loop call in Heq.
  pose proof (retry_leave_cases me rd rounds s0) as Hleave.
  cbv zeta in Hleave. fold loop in Hleave.
  split; [intros ex; apply retry_exit_cases|].
  split; [|split; [|split; [|split; [|split; [|split]]]]].
  - intros ex Hex. rewrite Hex in Heq. rewrite Heq. triple.
    split; [done|]. split; [eexists; by rewrite app_assoc|].
    unfold processed, callbacks, callback_events in *.
    rewrite !omap_app, Hp1, Hp2, Hc1, Hc2.
    by destruct (rd_callback rd).
  - intros Hno. rewrite Heq.
    destruct (outcome_of loop) as [ex|e|w]; [by destruct (Hno ex)|..];
      triple; unfold processed, callbacks in *;
      by rewrite !omap_app, Hp1, Hp2, Hc1, Hc2.
  - intros Hs Hw Hc H0. apply retry_terminates; [|done..].
    by apply await_item_no_waiter.
  - intros e He. rewrite He in Heq, Hleave.
    destruct Hleave as (Hi & Hr & Ht).
    split; [done|]. split; [done|]. split; [done|].
    rewrite Heq. triple. split; [done|]. split; [done|].
    unfold processed, callbacks in *.
    by rewrite !omap_app, Hp1, Hp2, Hc1, Hc2.
  - intros w Hw. rewrite Hw in Heq, Hleave. split; [done|].
    by rewrite Heq.
  - rewrite Heq.
    destruct (outcome_of loop) as [ex|e|w]; triple;
      unfold popped, callback_events in *;
      rewrite !omap_app, Hpop1, Hpop2; by destruct (rd_callback rd).
  - intros Hs Hw H0. apply retry_leaves; [|done..].
    by apply await_item_no_waiter.
Qed.

End loop_exit.

(** C6 at work: the sample request is queued, the consumer takes it, the
    first submission fails with an [APIError], the queue is unpaused while the
    consumer waits, and the second submission goes through. *)
Lemma C6_failure_then_success :
  let s :=
    state_of (sender.add_request sample_encode "GPSParser" "/gps" 1%positive
                None (Some 1700000000%Z) (Some 7) (sender.init sample_heap)) in
  let rd := mkRequestData 1 "GPSParser" "/gps" 1%positive None (Some 7) in
  let call :=
    sender.process_request sample_encode 0 [] [failing_round; resumed_round] s in
  outcome_of call = Val tt
  /\ processed (events_of call) = [rd]
  /\ callbacks (events_of call) = [7].
Proof.
  cbv zeta.
  pose proof (C6_loop_exits_and_processed_once sample_encode 0 []
    [failing_round; resumed_round]
    (state_of (sender.add_request sample_encode "GPSParser" "/gps" 1%positive
                 None (Some 1700000000%Z) (Some 7) (sender.init sample_heap)))
    (mkRequestData 1 "GPSParser" "/gps" 1%positive None (Some 7))
    eq_refl) as H.
  cbv zeta in H. destruct H as (_ & H & _).
  destruct (H sender.submitted) as (Ho & _ & Hp & Hc); [by vm_compute|].
  repeat split; assumption.
Defined.

(** C6, as the specification words it, fails: not every call that pops a
    request leaves its retry loop by a submission or a skip.  The sample
    request is queued, the consumer takes it, and [api.create] raises an
    exception that is neither a [RequestException] nor an [APIError]: the
    loop and [process_request] are left by that exception, the request is
    gone from the queue, the processed observers are not notified and the
    callback is not invoked. *)
Lemma C6_other_exception_drops_the_request :
  let s :=
    state_of (sender.add_request sample_encode "GPSParser" "/gps" 1%positive
                None (Some 1700000000%Z) (Some 7) (sender.init sample_heap)) in
  let rd := mkRequestData 1 "GPSParser" "/gps" 1%positive None (Some 7) in
  let e := raise_new OtherException "boom" in
  let crashing_round := sender.mkRound [] [] [] [] (Some e) in
  let loop :=
    sender.retry sample_encode 0 rd [crashing_round]
      (state_of (sender.await_item sample_encode 0 [] s)) in
  let call := sender.process_request sample_encode 0 [] [crashing_round] s in
  outcome_of (sender.await_item sample_encode 0 [] s) = Val rd
  /\ popped (events_of call) = [rd]
  /\ outcome_of loop = Exc e
  /\ outcome_of loop <> Val sender.submitted
  /\ outcome_of loop <> Val sender.skipped
  /\ outcome_of call = Exc e
  /\ processed (events_of call) = []
  /\ callbacks (events_of call) = []
  /\ sender.queue (sender.self (state_of call)) = [].
Proof. vm_compute. repeat split; discriminate. Qed.

(** ** The dispatcher *)

Section dispatcher.

Variable encode_datetime : datetime -> value.

Lemma keeps_self_ret {A} (a : A) : keeps_self (ret a).
Proof. done. Qed.

Lemma keeps_self_raise {A} e : keeps_self (@raise _ A e).
Proof. done. Qed.









(** Parsers that do not claim the line are passed over. *)
Lemma parse_line_with_skip parsers1 parsers line now :
  (forall p, p ∈ parsers1 -> truthy (outputparser.can_parse p line) = false) ->
  outputparser.parse_line_with encode_datetime (parsers1 ++ parsers) line now
  = outputparser.parse_line_with encode_datetime parsers line now.
Proof.
  induction parsers1 as [|p parsers1 IH]; intros H; [done|].
  cbn [app outputparser.parse_line_with].
  rewrite (H p) by by left. apply IH. intros p' Hp'. apply H. by right.
Qed.

(** Once a parser claims the line, those after it are not consulted. *)
Lemma parse_line_with_claimed parser parsers line now :
  truthy (outputparser.can_parse parser line) = true ->
  outputparser.parse_line_with encode_datetime (parser :: parsers) line now
  = outputparser.parse_line_with encode_datetime [parser] line now.
Proof. intros H. cbn [outputparser.parse_line_with]. by rewrite H. Qed.

Lemma parse_line_with_failed parser line now st h e :
  truthy (outputparser.can_parse parser line) = true ->
  outputparser.parse parser
    (mkOutputLine (outputparser.can_parse parser line) now line)
    (sender.heap (outputparser.sender st)) = (h, outputparser.raises e) ->
  isinstance e [ParseError] = true ->
  outputparser.parse_line_with encode_datetime [parser] line now st
  = (Exc (outputparser.set_parser_name e (outputparser.class_name parser)),
     outputparser.set_sender (sender.set_heap h (outputparser.sender st)) st,
     [on_line_parse_failed
        (mkOutputLine (outputparser.can_parse parser line) now line)]).
Proof.
  intros Hc Hp He. cbn [outputparser.parse_line_with]. rewrite Hc.
  unfold bind, try_except, outputparser.call_parse. rewrite Hp. simpl.
  rewrite He. reflexivity.
Qed.

(** What [parse_line] does with the parser that claims the line, by what
    [parse] does. *)
Lemma parse_line_with_one_eq parser line now st :
  truthy (outputparser.can_parse parser line) = true ->
  let output_line :=
    mkOutputLine (outputparser.can_parse parser line) now line in
  let snd := sender.self (outputparser.sender st) in
  let parsed :=
    outputparser.parse parser output_line
      (sender.heap (outputparser.sender st)) in
  let st1 :=
    outputparser.set_sender
      (sender.set_heap parsed.1 (outputparser.sender st)) st in
  outputparser.parse_line_with encode_datetime [parser] line now st
  = match parsed.2 with
    | outputparser.raises e =>
        if isinstance e [ParseError]
        then (Exc (outputparser.set_parser_name e
                     (outputparser.class_name parser)),
              st1, [on_line_parse_failed output_line])
        else (Exc e, st1, [])
    | outputparser.returns None => (Val tt, st1, [on_line_parsed output_line])
    | outputparser.returns (Some d) =>
        if truthy_dict parsed.1 (Some d) then
          let rd :=
            mkRequestData (sender.id snd) (outputparser.class_name parser)
              (outputparser.url parser) d None None in
          (Val tt,
           outputparser.set_sender
             (sender.mkState
                (setitem d "timestamp" (VDatetime now) parsed.1)
                (sender.mkSender (sender.id snd + 1) (sender.paused snd)
                   (sender.skip_current snd) (sender.queue snd ++ [rd])
                   (sender.notify (sender.not_empty snd))
                   (sender.unpaused snd)))
             st,
           [on_line_parsed output_line; acquire lock; queue_append rd;
            release lock; on_request_added rd])
        else (Val tt, st1, [on_line_parsed output_line])
    end.
Proof.
  intros Hc output_line snd parsed st1. subst st1 parsed snd.
  cbn [outputparser.parse_line_with]. rewrite Hc. fold output_line.
  destruct (outputparser.parse parser output_line
              (sender.heap (outputparser.sender st))) as [h pr] eqn:Hp.
  cbn [fst snd].
  set (st1 := outputparser.set_sender
                (sender.set_heap h (outputparser.sender st)) st).
  assert (outputparser.call_parse parser output_line st
          = match pr with
            | outputparser.returns d => (Val d, st1, [])
            | outputparser.raises e => (Exc e, st1, [])
            end) as Hcall.
  { unfold outputparser.call_parse. rewrite Hp. by destruct pr. }
  match goal with
  | |- bind (try_except ?b ?cs ?hd) _ _ = _ =>
      assert (try_except b cs hd st
              = match pr with
                | outputparser.returns d =>
                    (Val d, st1, [on_line_parsed output_line])
                | outputparser.raises e =>
                    if isinstance e [ParseError]
                    then (Exc (outputparser.set_parser_name e
                                 (outputparser.class_name parser)),
                          st1, [on_line_parse_failed output_line])
                    else (Exc e, st1, [])
                end) as Hbody
  end.
  { unfold try_except. rewrite bind_eq, Hcall.
    destruct pr as [d|e]; triples.
    - reflexivity.
    - by destruct (isinstance e [ParseError]). }
  rewrite bind_eq, Hbody.
  destruct pr as [[d|]|e]; triples.
  - rewrite bind_get. subst st1.
    cbn [outputparser.sender outputparser.set_sender sender.heap
           sender.set_heap].
    destruct (truthy_dict h (Some d)); reflexivity.
  - by rewrite bind_get.
  - by destruct (isinstance e [ParseError]).
Qed.

Lemma rstrip_nonempty chars raw :
  outputparser.rstrip chars raw <> "" -> raw <> "".
Proof. by intros H ->. Qed.

(** A line that is not empty once stripped is dispatched, and a
    [ParseError] that comes back is logged. *)
Lemma poll_dispatch raw now st :
  outputparser.rstrip [outputparser.CR; outputparser.LF] raw <> "" ->
  outputparser.poll encode_datetime raw now st
  = try_except
      (outputparser.parse_line encode_datetime
         (outputparser.rstrip [outputparser.CR; outputparser.LF] raw) now)
      [ParseError]
      (fun e =>
         emit (log (outputparser.logger_for e) exception
                 ("Could not parse line: "
                  +:+ outputparser.rstrip [outputparser.CR; outputparser.LF] raw
                  +:+ " (" +:+ exc_msg e +:+ ")"))) st.
Proof.
  intros H. unfold outputparser.poll.
  pose proof (rstrip_nonempty _ _ H) as Hraw.
  apply String.eqb_neq in H, Hraw. by rewrite Hraw, H.
Qed.

Lemma read_loop_readline raw now ticks st :
  outputparser.is_terminated (outputparser.self st) = false ->
  outputparser.read_loop encode_datetime
    (outputparser.readline raw now :: ticks) st
  = (outputparser.poll encode_datetime raw now ;;;
     outputparser.read_loop encode_datetime ticks) st.
Proof.
  intros H. cbn [outputparser.read_loop]. by rewrite bind_get, H.
Qed.

(** C4.  Let the parsers before [P] not claim the line, let [P] claim it,
    and let [P.parse] raise [e], a [ParseError] (or a subclass of it).  Then
    [parse_line] notifies the line-parse-failed observers with the line, and
    with nothing else, and raises [e] with [parser_name] set to the class
    name of [P]; whatever parsers come after [P] play no part, and nothing is
    put in the queue.  In the loop of [parse_file] the error is caught and
    logged under that name, and the loop goes on. *)
Theorem C4_claimed_line_failure_is_final
    st parsers1 P parsers2 raw line now h e :
  outputparser._parsers (outputparser.self st) = parsers1 ++ P :: parsers2 ->
  (forall p, p ∈ parsers1 -> truthy (outputparser.can_parse p line) = false) ->
  truthy (outputparser.can_parse P line) = true ->
  let output_line := mkOutputLine (outputparser.can_parse P line) now line in
  outputparser.parse P output_line (sender.heap (outputparser.sender st))
    = (h, outputparser.raises e) ->
  isinstance e [ParseError] = true ->
  outputparser.rstrip [outputparser.CR; outputparser.LF] raw = line ->
  line <> "" ->
  let e' := outputparser.set_parser_name e (outputparser.class_name P) in
  let st' :=
    outputparser.set_sender (sender.set_heap h (outputparser.sender st)) st in
  outputparser.parse_line encode_datetime line now st
    = (Exc e', st', [on_line_parse_failed output_line])
  /\ parser_name e' = Some (outputparser.class_name P)
  /\ exc_class e' = exc_class e /\ exc_msg e' = exc_msg e
  /\ (forall others,
        outputparser.parse_line_with encode_datetime
          (parsers1 ++ P :: others) line now st
        = (Exc e', st', [on_line_parse_failed output_line]))
  /\ sender.queue (sender.self (outputparser.sender st'))
     = sender.queue (sender.self (outputparser.sender st))
  /\ outputparser.poll encode_datetime raw now st
     = (Val tt, st',
        [on_line_parse_failed output_line;
         log (outputparser.logger_for e') exception
           ("Could not parse line: " +:+ line +:+ " (" +:+ exc_msg e +:+ ")")]).
Proof.
  intros Hps H1 HP output_line Hparse He Hraw Hline e' st'.
  assert (forall others,
            outputparser.parse_line_with encode_datetime
              (parsers1 ++ P :: others) line now st
            = (Exc e', st', [on_line_parse_failed output_line])) as Hany.
  { intros others. rewrite parse_line_with_skip by done.
    rewrite parse_line_with_claimed by done.
    by apply parse_line_with_failed. }
  assert (outputparser.parse_line encode_datetime line now st
          = (Exc e', st', [on_line_parse_failed output_line])) as Hpl.
  { unfold outputparser.parse_line. rewrite bind_get, Hps. apply Hany. }
  repeat split; try done.
  rewrite poll_dispatch by by rewrite Hraw.
  rewrite Hraw. unfold try_except. rewrite Hpl.
  assert (isinstance e' [ParseError] = true) as -> by exact He.
  reflexivity.
Qed.

(** C5.  Let no parser claim the line.  Then [parse_line] raises the
    [ParseError] "Line was not parsed by any parser", with no [parser_name],
    leaves every object as it was and notifies no observer -- the
    line-parse-failed observers are not called.  In the loop of [parse_file]
    the error is caught and logged by the logger of the parser itself, and
    the loop goes on with the next line. *)
Theorem C5_unclaimed_line st raw line now ticks :
  (forall p, p ∈ outputparser._parsers (outputparser.self st) ->
             truthy (outputparser.can_parse p line) = false) ->
  outputparser.rstrip [outputparser.CR; outputparser.LF] raw = line ->
  line <> "" ->
  outputparser.is_terminated (outputparser.self st) = false ->
  let e := raise_new ParseError "Line was not parsed by any parser" in
  let entry :=
    log "Parser" exception
      ("Could not parse line: " +:+ line
       +:+ " (Line was not parsed by any parser)") in
  let rest := outputparser.read_loop encode_datetime ticks st in
  outputparser.parse_line encode_datetime line now st = (Exc e, st, [])
  /\ parser_name e = None
  /\ outputparser.poll encode_datetime raw now st = (Val tt, st, [entry])
  /\ outputparser.read_loop encode_datetime
       (outputparser.readline raw now :: ticks) st
     = (outcome_of rest, state_of rest, entry :: events_of rest).
Proof.
  intros Hnone Hraw Hline Hterm e entry rest.
  assert (outputparser.parse_line encode_datetime line now st = (Exc e, st, []))
    as Hpl.
  { unfold outputparser.parse_line. rewrite bind_get.
    rewrite <- (app_nil_r (outputparser._parsers _)).
    by rewrite parse_line_with_skip. }
  assert (outputparser.poll encode_datetime raw now st = (Val tt, st, [entry]))
    as Hpoll.
  { rewrite poll_dispatch by by rewrite Hraw.
    rewrite Hraw. unfold try_except. by rewrite Hpl. }
  repeat split; try done.
  rewrite read_loop_readline by done.
  rewrite (bind_val _ _ _ tt) by by rewrite Hpoll.
  by rewrite Hpoll.
Qed.

End dispatcher.

(** C4 at work: the sample GPS parser claims the line [$GPGGA,] and rejects
    it; the error leaves [parse_line] with the name of that parser. *)
Lemma C4_gps_line_without_fix :
  let output_line := mkOutputLine (VStr "GPGGA") 5%Z "$GPGGA," in
  outputparser.parse_line sample_encode "$GPGGA," 5%Z sample_parser_state
  = (Exc (mk_exn ValidationError "no fix" (Some "GPSParser")),
     sample_parser_state, [on_line_parse_failed output_line]).
Proof.
  cbv zeta.
  apply (C4_claimed_line_failure_is_final sample_encode sample_parser_state
           [] sample_gps [sample_telemetry] ("$GPGGA," +:+ CRLF) "$GPGGA," 5%Z
           sample_heap (raise_new ValidationError "no fix"));
    try reflexivity.
  - intros p Hp. by apply elem_of_nil in Hp.
  - discriminate.
Defined.

(** C5 at work: neither sample parser claims the line [garbage]. *)
Lemma C5_garbage_line :
  outputparser.poll sample_encode ("garbage" +:+ CRLF) 5%Z sample_parser_state
  = (Val tt, sample_parser_state,
     [log "Parser" exception
        "Could not parse line: garbage (Line was not parsed by any parser)"]).
Proof.
  apply (C5_unclaimed_line sample_encode sample_parser_state
           ("garbage" +:+ CRLF) "garbage" 5%Z []); try reflexivity.
  - intros p Hp. cbn in Hp.
    apply elem_of_cons in Hp as [->|Hp]; [reflexivity|].
    apply elem_of_cons in Hp as [->|Hp]; [reflexivity|].
    by apply elem_of_nil in Hp.
  - discriminate.
Defined.

(** ** The loop of [parse_file] *)

Section tail_reader.

Variable encode_datetime : datetime -> value.

Lemma read_loop_terminated ticks st :
  outputparser.is_terminated (outputparser.self st) = true ->
  outputparser.read_loop encode_datetime ticks st = (Val tt, st, []).
Proof.
  intros H. destruct ticks as [|[|raw now] ticks];
    cbn [outputparser.read_loop]; by rewrite bind_get, H.
Qed.

Lemma read_loop_nil st :
  outputparser.is_terminated (outputparser.self st) = false ->
  outputparser.read_loop encode_datetime [] st = (Block polling, st, []).
Proof. intros H. cbn [outputparser.read_loop]. by rewrite bind_get, H. Qed.

Lemma read_loop_mark ticks st :
  outputparser.is_terminated (outputparser.self st) = false ->
  outputparser.read_loop encode_datetime (outputparser.mark :: ticks) st
  = (Val tt, outputparser.set_is_terminated true st, []).
Proof.
  intros H. cbn [outputparser.read_loop]. rewrite bind_get, H.
  rewrite bind_eq. unfold outputparser.mark_terminated, modify. triple.
  cbv beta iota. by rewrite read_loop_terminated.
Qed.







End tail_reader.



(** ** Dictionaries shared with the queue *)

Section aliasing.

Variable encode_datetime : datetime -> value.

Lemma lookup_setitem r k v (h : Py.heap) :
  setitem r k v h !! r = insert k v <$> h !! r.
Proof. unfold setitem. apply lookup_alter_eq. Qed.

Lemma lookup_setitem_ne r r' k v (h : Py.heap) :
  r <> r' -> setitem r k v h !! r' = h !! r'.
Proof. intros H. unfold setitem. by apply lookup_alter_ne. Qed.

(** A line that is claimed and parsed into a record that is not empty: the
    record gets the time of the line and is queued as it is. *)
Lemma parse_line_with_parsed parser line now st h d (m : Py.dict) :
  truthy (outputparser.can_parse parser line) = true ->
  outputparser.parse parser
    (mkOutputLine (outputparser.can_parse parser line) now line)
    (sender.heap (outputparser.sender st))
    = (h, outputparser.returns (Some d)) ->
  h !! d = Some m -> m <> ∅ ->
  let output_line :=
    mkOutputLine (outputparser.can_parse parser line) now line in
  let snd := sender.self (outputparser.sender st) in
  let rd :=
    mkRequestData (sender.id snd) (outputparser.class_name parser)
      (outputparser.url parser) d None None in
  outputparser.parse_line_with encode_datetime [parser] line now st
  = (Val tt,
     outputparser.set_sender
       (sender.mkState (setitem d "timestamp" (VDatetime now) h)
          (sender.mkSender (sender.id snd + 1) (sender.paused snd)
             (sender.skip_current snd) (sender.queue snd ++ [rd])
             (sender.notify (sender.not_empty snd)) (sender.unpaused snd)))
       st,
     [on_line_parsed output_line; acquire lock; queue_append rd; release lock;
      on_request_added rd]).
Proof.
  intros Hc Hp Hd Hm output_line snd rd.
  cbn [outputparser.parse_line_with]. rewrite Hc. fold output_line.
  set (st1 := outputparser.set_sender
                (sender.set_heap h (outputparser.sender st)) st).
  assert (outputparser.call_parse parser output_line st = (Val (Some d), st1, []))
    as Hcall.
  { unfold outputparser.call_parse. subst output_line. by rewrite Hp. }
  match goal with
  | |- bind (try_except ?b ?cs ?hd) _ _ = _ =>
      assert (try_except b cs hd st
              = (Val (Some d), st1, [on_line_parsed output_line])) as Hbody
  end.
  { unfold try_except. rewrite (bind_val _ _ _ (Some d)) by by rewrite Hcall.
    rewrite Hcall. triple. reflexivity. }
  rewrite (bind_val _ _ _ (Some d)) by by rewrite Hbody.
  rewrite Hbody. triple. rewrite bind_get.
  unfold truthy_dict. subst st1. cbn [outputparser.sender
    outputparser.set_sender sender.heap sender.set_heap].
  rewrite Hd, bool_decide_false by done. reflexivity.
Qed.

(** C10.  [add_request] with [append_timestamp] true writes the key
    [timestamp] into the dictionary the caller passed -- the caller, reading
    its own dictionary, finds the key -- and into no other; the request it
    queues holds that same dictionary, not a copy, so that what the caller
    writes into it afterwards is what the queued request holds.  With
    [append_timestamp] false no dictionary is written.  Likewise
    [parse_line] writes [timestamp], the time of the line, into the record
    the parser returned and queues a request that holds that record. *)
Theorem C10_timestamp_written_in_place
    module url data files utcnow cb s (d : Py.dict)
    st parsers1 P parsers2 line now h rec (m : Py.dict) :
  sender.heap s !! data = Some d ->
  outputparser._parsers (outputparser.self st) = parsers1 ++ P :: parsers2 ->
  (forall p, p ∈ parsers1 -> truthy (outputparser.can_parse p line) = false) ->
  truthy (outputparser.can_parse P line) = true ->
  outputparser.parse P (mkOutputLine (outputparser.can_parse P line) now line)
    (sender.heap (outputparser.sender st))
    = (h, outputparser.returns (Some rec)) ->
  h !! rec = Some m -> m <> ∅ ->
  let r := sender.add_request encode_datetime module url data files
             (Some utcnow) cb s in
  let rd := mkRequestData (sender.id (sender.self s)) module url data files cb in
  let stamped := <["timestamp" := encode_datetime utcnow]> d in
  let pl := outputparser.parse_line encode_datetime line now st in
  let rd' :=
    mkRequestData (sender.id (sender.self (outputparser.sender st)))
      (outputparser.class_name P) (outputparser.url P) rec None None in
  outcome_of r = Val tt
  /\ sender.heap (state_of r) !! data = Some stamped
  /\ (forall other, data <> other ->
        sender.heap (state_of r) !! other = sender.heap s !! other)
  /\ sender.queue (sender.self (state_of r))
     = sender.queue (sender.self s) ++ [rd]
  /\ sender.heap (state_of r) !! rd_data rd = Some stamped
  /\ (forall k v,
        let later :=
          state_of (sender.run_action encode_datetime
                      (sender.do_setitem data k v) (state_of r)) in
        sender.heap later !! rd_data rd = Some (<[k := v]> stamped)
        /\ sender.queue (sender.self later)
           = sender.queue (sender.self s) ++ [rd])
  /\ sender.heap (state_of (sender.add_request encode_datetime module url
                              data files None cb s)) = sender.heap s
  /\ outcome_of pl = Val tt
  /\ events_of pl
     = [on_line_parsed (mkOutputLine (outputparser.can_parse P line) now line);
        acquire lock; queue_append rd'; release lock; on_request_added rd']
  /\ sender.heap (outputparser.sender (state_of pl)) !! rec
     = Some (<["timestamp" := VDatetime now]> m)
  /\ sender.queue (sender.self (outputparser.sender (state_of pl)))
     = sender.queue (sender.self (outputparser.sender st)) ++ [rd']
  /\ rd_data rd' = rec.
Proof.
  intros Hd Hps H1 HP Hparse Hrec Hm r rd stamped pl rd'.
  subst r. rewrite !add_request_eq. triple. cbn [sender.heap sender.self
    sender.queue rd_data].
  split; [done|]. split; [by rewrite lookup_setitem, Hd|].
  split; [intros other Hne; by apply lookup_setitem_ne|].
  split; [done|]. split; [by rewrite lookup_setitem, Hd|].
  split.
  { intros k v. cbn. split; [|done].
    by rewrite !lookup_setitem, Hd. }
  split; [done|].
  pose proof (parse_line_with_parsed P line now st h rec m HP Hparse Hrec Hm)
    as Hw. cbv zeta in Hw.
  assert (pl = outputparser.parse_line_with encode_datetime [P] line now st)
    as Hpl.
  { subst pl. unfold outputparser.parse_line. rewrite bind_get, Hps.
    rewrite parse_line_with_skip by done.
    by rewrite parse_line_with_claimed by done. }
  rewrite Hpl, Hw. triple. cbn [outputparser.set_sender outputparser.sender
    sender.heap sender.self sender.queue].
  repeat split; try done. by rewrite lookup_setitem, Hrec.
Qed.

End aliasing.

(** C10 at work: the sample GPS parser fills its record, which [parse_line]
    stamps and queues; and a caller's dictionary is stamped by
    [add_request]. *)
Lemma C10_record_is_stamped :
  let pl := outputparser.parse_line sample_encode "$GPGGA,50" 5%Z
              sample_parser_state in
  let r := sender.add_request sample_encode "main" "/status" 1%positive None
             (Some 1700000000%Z) None (sender.init sample_heap) in
  sender.heap (outputparser.sender (state_of pl)) !! 10%positive
    = Some (<["timestamp" := VDatetime 5%Z]> {[ "lat" := VInt 50 ]})
  /\ sender.heap (state_of r) !! 1%positive
     = Some (<["timestamp" := VInt 1700000000%Z]> {[ "lat" := VInt 50 ]}).
Proof.
  cbv zeta.
  pose proof (C10_timestamp_written_in_place sample_encode
    "main" "/status" 1%positive None 1700000000%Z None
    (sender.init sample_heap) {[ "lat" := VInt 50 ]}
    sample_parser_state [] sample_gps [sample_telemetry] "$GPGGA,50" 5%Z
    (<[10%positive := {[ "lat" := VInt 50 ]}]> sample_heap) 10%positive
    {[ "lat" := VInt 50 ]}) as H.
  cbv zeta in H.
  destruct H as (_ & Hcaller & _ & _ & _ & _ & _ & _ & _ & Hrec & _).
  - reflexivity.
  - reflexivity.
  - intros p Hp. by apply elem_of_nil in Hp.
  - reflexivity.
  - reflexivity.
  - reflexivity.
  - vm_compute. discriminate.
  - split; assumption.
Defined.

(** ** The parser manager *)

(** C3.  What [ParserManager.parse_file] does when [Path(path).resolve()]
    raises [FileNotFoundError]: with a worker running it raises the
    [RuntimeError] "The worker is already running"; otherwise it logs
    "Parser start failed: could not find data file" and returns -- no error
    reaches the caller, against the docstring's [:raise FileNotFoundError:] --
    and in both cases the manager is left as it was, with no worker made. *)
Theorem C3_file_not_found_is_logged_not_raised
    (PARSERS : list outputparser.Parser) (msg : string)
    (s : outputparser.Manager.state) :
  outputparser.Manager.parse_file PARSERS
    (inr (raise_new FileNotFoundError msg)) s
  = if outputparser.Manager.is_running (outputparser.Manager.self s)
    then (Exc (raise_new RuntimeError "The worker is already running"), s, [])
    else (Val tt, s,
          [log "Parser" exception
             ("Parser start failed: could not find data file ("
              +:+ msg +:+ ")")]).
Proof.
  unfold outputparser.Manager.parse_file. rewrite bind_get.
  by destruct (outputparser.Manager.is_running _).
Qed.

(** C8.  A manager starts a worker on [a.log], the user calls [terminate],
    and the worker ends; the manager then starts a worker on [b.log], which
    cannot be opened, so that this worker ends at once, [terminate] not having
    been called since it was started.  Its end is logged as "Parser was
    terminated by the user": [terminated_by_user], set during the first run,
    is never cleared.  On a new manager the same end of the same worker is
    logged as "Parser terminated unexpectedly". *)
Theorem C8_user_flag_outlives_the_run :
  let start_a := outputparser.Manager.call_parse_file (inl "/data/a.log") in
  let start_b := outputparser.Manager.call_parse_file (inl "/data/b.log") in
  let ends := outputparser.Manager.thread_runs None [] in
  let cannot_open :=
    outputparser.Manager.thread_runs
      (Some (raise_new OSError "Permission denied")) [] in
  let new := outputparser.Manager.init (sender.init ∅) in
  events_of (outputparser.Manager.run_calls sample_encode [sample_gps]
               [start_a; outputparser.Manager.call_terminate; ends;
                start_b; cannot_open] new)
  = [log "Parser" info "Starting parser: /data/a.log";
     signal "parser_started";
     log "Parser" info "Parser was terminated by the user";
     signal "parser_terminated";
     log "Parser" info "Starting parser: /data/b.log";
     signal "parser_started";
     log "Parser" exception "Could not parse file (Permission denied)";
     log "Parser" info "Parser was terminated by the user";
     signal "parser_terminated"]
  /\ events_of (outputparser.Manager.run_calls sample_encode [sample_gps]
                  [start_b; cannot_open] new)
     = [log "Parser" info "Starting parser: /data/b.log";
        signal "parser_started";
        log "Parser" exception "Could not parse file (Permission denied)";
        log "Parser" warning "Parser terminated unexpectedly";
        signal "parser_terminated"].
Proof. split; reflexivity. Qed.

(** ** Skipping and pausing *)

Section skip_and_pause.

Variable encode_datetime : datetime -> value.

Lemma bind_ret_l {S A B} (a : A) (k : A -> M S B) s :
  bind (ret a) k s = k a s.
Proof. unfold bind, ret. by destruct (k a s) as [[o s2] t2]. Qed.

Lemma silent_from_callers t :
  Forall from_callers t ->
  submissions t = [] /\ errors t = [] /\ processed t = [] /\ popped t = [].
Proof.
  induction 1 as [|e t He _ (IH1 & IH2 & IH3 & IH4)]; [done|].
  unfold submissions, errors, processed, popped in *. by destruct e.
Qed.

(** Calls other than [set_paused(False)] wake no one. *)
Lemma run_actions_keep_waiters acts s :
  Forall (fun a => a <> sender.do_set_paused false) acts ->
  sender.unpaused (sender.self
    (state_of (sender.run_actions encode_datetime acts s)))
  = sender.unpaused (sender.self s).
Proof.
  intros H. revert s. induction H as [|a acts Ha _ IH]; intros s; [done|].
  cbn [sender.run_actions].
  rewrite (bind_val _ _ _ tt) by apply run_action_val. triple.
  rewrite IH, run_action_unpaused.
  by destruct a as [? ? ? ? ? ?|[|]| |].
Qed.

(** X1.  With [skip_current] set and the queue not paused,
    [process_request] takes the oldest request and drops it: nothing is
    submitted and the processing observers are not notified, the flag is
    cleared, the rest of the queue is as it was, and the call still ends with
    [on_request_processed] and the callback of the request. *)
Theorem skip_drops_the_next_request
    me waits rounds wp dc res s rd q :
  sender.skip_current (sender.self s) = true ->
  sender.paused (sender.self s) = false ->
  sender.queue (sender.self s) = rd :: q ->
  let r := sender.process_request encode_datetime me waits
             (sender.mkRound [] wp [] dc res :: rounds) s in
  outcome_of r = Val tt
  /\ state_of r = sender.set_skip_current_flag false (sender.set_queue q s)
  /\ events_of r
     = [acquire lock; queue_popleft rd; release lock;
        acquire pause_lock; release pause_lock;
        acquire lock; release lock;
        on_request_processed rd] ++ callback_events rd
  /\ submissions (events_of r) = [].
Proof.
  intros Hskip Hpaused Hq r. subst r.
  destruct s as [h [i p sk qu ne un]]. simpl in Hskip, Hpaused, Hq. subst.
  destruct rd as [? ? ? ? ? [c|]], waits; repeat split.
Qed.

Lemma run_calls_app cs1 cs2 s :
  sender.run_calls encode_datetime (cs1 ++ cs2) s
  = ((sender.run_calls encode_datetime cs2
        (sender.run_calls encode_datetime cs1 s).1).1,
     (sender.run_calls encode_datetime cs1 s).2
       ++ (sender.run_calls encode_datetime cs2
             (sender.run_calls encode_datetime cs1 s).1).2).
Proof.
  revert s. induction cs1 as [|c cs1 IH]; intros s; simpl.
  - by destruct (sender.run_calls encode_datetime cs2 s).
  - destruct (sender.run_call encode_datetime c s) as [[o s1] t1].
    rewrite IH.
    destruct (sender.run_calls encode_datetime cs1 s1) as [s2 t2]. simpl.
    by rewrite app_assoc.
Qed.

Lemma run_calls_skip_requests n s :
  (sender.run_calls encode_datetime
     (repeat (sender.by_other sender.do_set_skip_current) (S n)) s).1
  = sender.set_skip_current_flag true s
  /\ Forall from_callers
       (sender.run_calls encode_datetime
          (repeat (sender.by_other sender.do_set_skip_current) (S n)) s).2.
Proof.
  revert s. induction n as [|n IH]; intros s.
  - split; [done|]. by repeat constructor.
  - destruct (IH (sender.set_skip_current_flag true s)) as [Hs Ht].
    change (repeat ?x (S (S n))) with (x :: repeat x (S n)).
    cbn [sender.run_calls].
    change (sender.run_call encode_datetime
              (sender.by_other sender.do_set_skip_current) s)
      with (Val tt, sender.set_skip_current_flag true s,
            [acquire lock; release lock]).
    cbv iota beta.
    destruct (sender.run_calls encode_datetime _
                (sender.set_skip_current_flag true s)) as [s2 t2].
    simpl in *. split; [by rewrite Hs|by repeat constructor].
Qed.

(** X2.  [skip_current] is a flag, not a count: however many times
    [set_skip_current] is called before the consumer's next skip check, one
    request is dropped -- the oldest -- and the one after it is submitted as
    usual. *)
Theorem skip_requests_do_not_add_up me n res s rd1 rd2 q :
  sender.paused (sender.self s) = false ->
  sender.queue (sender.self s) = rd1 :: rd2 :: q ->
  let r :=
    sender.run_calls encode_datetime
      (repeat (sender.by_other sender.do_set_skip_current) (S n)
       ++ [sender.by_consumer me [] [alone res];
           sender.by_consumer me [] [alone None]]) s in
  submissions r.2 = [submitted_fields rd2]
  /\ processed r.2 = [rd1; rd2]
  /\ sender.queue (sender.self r.1) = q
  /\ sender.skip_current (sender.self r.1) = false.
Proof.
  intros Hp Hq r. subst r. rewrite run_calls_app.
  destruct (run_calls_skip_requests n s) as [-> Ht].
  destruct (silent_from_callers _ Ht) as (Hs & _ & Hpr & _).
  unfold submissions, processed in *. cbn [fst snd].
  rewrite !omap_app, Hs, Hpr.
  destruct s as [h [i p sk qu ne un]]. simpl in Hp, Hq. subst.
  destruct rd1 as [? ? ? ? ? [c1|]], rd2 as [? ? ? ? ? [c2|]]; repeat split.
Qed.

(** The pass of a consumer that finds the queue paused and is not woken. *)
Lemma attempt_blocked_eq me rd wp bs dc res s :
  sender.paused (sender.self s) = true ->
  Forall (fun a => a <> sender.do_set_paused false) wp ->
  let waiting :=
    sender.run_actions encode_datetime wp
      (sender.set_unpaused (sender.unpaused (sender.self s) ++ [me]) s) in
  sender.attempt encode_datetime me rd (sender.mkRound [] wp bs dc res) s
  = (Block (wait_unpaused rd), state_of waiting,
     acquire pause_lock :: release pause_lock :: events_of waiting).
Proof.
  intros Hp Hwp waiting. unfold sender.attempt.
  cbn [sender.before_pause sender.while_paused sender.run_actions].
  rewrite bind_ret_l.
  rewrite bind_eq, with_lock_eq, bind_get. cbv beta. rewrite Hp. triple.
  unfold sender.wait_unpaused_cond.
  rewrite bind_eq. unfold modify at 1. triple. cbv beta iota.
  rewrite bind_emit. triple.
  rewrite (bind_val _ _ _ tt) by apply run_actions_val. triple.
  rewrite bind_get. fold waiting.
  assert (me ∈ sender.unpaused (sender.self (state_of waiting))) as Hin.
  { subst waiting. rewrite run_actions_keep_waiters by done. simpl.
    apply elem_of_app. right. by left. }
  rewrite bool_decide_true by done. unfold block. triple. cbv beta iota.
  by rewrite !app_nil_r.
Qed.

(** X3.  While the queue is paused and no one calls [set_paused(False)],
    [process_request] takes the oldest request and then waits: whatever else
    other threads do meanwhile -- add requests, ask to skip, pause again --
    the request is neither submitted nor announced as processed, and nothing
    else leaves the queue. *)
Theorem paused_queue_submits_nothing me waits rounds wp bs dc res s rd q :
  sender.paused (sender.self s) = true ->
  sender.queue (sender.self s) = rd :: q ->
  Forall (fun a => a <> sender.do_set_paused false) wp ->
  let r := sender.process_request encode_datetime me waits
             (sender.mkRound [] wp bs dc res :: rounds) s in
  outcome_of r = Block (wait_unpaused rd)
  /\ submissions (events_of r) = []
  /\ processed (events_of r) = []
  /\ popped (events_of r) = [rd]
  /\ sender.paused (sender.self (state_of r)) = true.
Proof.
  intros Hp Hq Hwp r. subst r. rewrite process_request_eq. cbv zeta.
  rewrite await_item_eq, Hq. triples.
  rewrite retry_cons_eq. cbv zeta.
  rewrite attempt_blocked_eq by done. triples.
  pose proof (only_run_actions encode_datetime wp
    (sender.set_unpaused
       (sender.unpaused (sender.self (sender.set_queue q s)) ++ [me])
       (sender.set_queue q s))) as Hc.
  destruct (silent_from_callers _ Hc) as (Hs & _ & Hpr & Hpo).
  unfold submissions, processed, popped in *.
  change (acquire pause_lock :: release pause_lock :: ?l)
    with ([acquire pause_lock; release pause_lock] ++ l).
  rewrite !omap_app, Hs, Hpr, Hpo. repeat split.
  clear Hc Hs Hpr Hpo.
  set (s0 := sender.set_unpaused _ _).
  assert (sender.paused (sender.self s0) = true) as H0 by done.
  clearbody s0. revert s0 H0.
  induction Hwp as [|a wp Ha _ IH]; intros s0 H0; [done|].
  cbn [sender.run_actions].
  rewrite (bind_val _ _ _ tt) by apply run_action_val. triple.
  apply IH. destruct a as [? ? ? ? [?|] ?|[|]| |]; done.
Qed.

Lemma run_actions_keep_paused acts s :
  Forall (fun a => a <> sender.do_set_paused false) acts ->
  sender.paused (sender.self s) = true ->
  sender.paused (sender.self
    (state_of (sender.run_actions encode_datetime acts s))) = true.
Proof.
  intros H. revert s. induction H as [|a acts Ha _ IH]; intros s Hs; [done|].
  cbn [sender.run_actions].
  rewrite (bind_val _ _ _ tt) by apply run_action_val. triple.
  apply IH. destruct a as [? ? ? ? [?|] ?|[|]| |]; done.
Qed.

(** A pass during which no other thread does anything, on a queue that is
    not paused and with no skip asked for. *)
Lemma attempt_alone_eq me rd res s :
  sender.paused (sender.self s) = false ->
  sender.skip_current (sender.self s) = false ->
  sender.attempt encode_datetime me rd (alone res) s
  = (Val match res with
         | None => sender.created
         | Some e => sender.failed e
         end, s,
     [acquire pause_lock; release pause_lock; acquire lock; release lock;
      on_request_processing rd;
      api_create (rd_url rd) (rd_data rd) (rd_files rd)]).
Proof.
  intros Hp Hs. destruct s as [h [i p sk qu ne un]]. simpl in Hp, Hs. subst.
  by destruct res.
Qed.

(** X4.  After a submission that failed with a [RequestException] or an
    [APIError], the request is not submitted again before someone calls
    [set_paused(False)]: the consumer has paused the queue itself and waits,
    holding the same request; there has been one submission and one error
    report, both for that request. *)
Theorem failure_holds_the_request_until_unpaused
    me rd e wp bs dc res rounds s :
  sender.paused (sender.self s) = false ->
  sender.skip_current (sender.self s) = false ->
  isinstance e [RequestException; APIError] = true ->
  Forall (fun a => a <> sender.do_set_paused false) wp ->
  let r := sender.retry encode_datetime me rd
             (alone (Some e) :: sender.mkRound [] wp bs dc res :: rounds) s in
  outcome_of r = Block (wait_unpaused rd)
  /\ submissions (events_of r) = [submitted_fields rd]
  /\ errors (events_of r) = [rd]
  /\ sender.paused (sender.self (state_of r)) = true.
Proof.
  intros Hp Hs He Hwp r. subst r.
  rewrite retry_cons_eq. cbv zeta. rewrite attempt_alone_eq by done. triples.
  rewrite He. rewrite retry_cons_eq. cbv zeta.
  rewrite attempt_blocked_eq by done. triples.
  match goal with
  | |- context [sender.run_actions _ wp ?s0] => set (s1 := s0)
  end.
  destruct (silent_from_callers _ (only_run_actions encode_datetime wp s1))
    as (Hsub & Herr & _ & _).
  unfold submissions, errors in *.
  change (acquire pause_lock :: release pause_lock :: ?l)
    with ([acquire pause_lock; release pause_lock] ++ l).
  rewrite !omap_app, Hsub, Herr. repeat split.
  by apply run_actions_keep_paused.
Qed.

(** X5.  The pause check is an [if], not a loop: a consumer that was woken
    by [set_paused(False)] goes on to submit its request even when the queue
    has been paused again before it runs. *)
Theorem wake_up_is_not_checked_again me rd res s :
  sender.paused (sender.self s) = true ->
  sender.unpaused (sender.self s) = [] ->
  sender.skip_current (sender.self s) = false ->
  let a :=
    sender.attempt encode_datetime me rd
      (sender.mkRound []
         [sender.do_set_paused false; sender.do_set_paused true] [] [] res) s in
  outcome_of a = Val match res with
                     | None => sender.created
                     | Some e => sender.failed e
                     end
  /\ sender.paused (sender.self (state_of a)) = true
  /\ submissions (events_of a) = [submitted_fields rd].
Proof.
  intros Hp Hu Hs a. subst a.
  destruct s as [h [i p sk qu ne un]]. simpl in Hp, Hu, Hs. subst.
  by destruct res.
Qed.

Lemma wait_not_empty_cond_eq me others s :
  let w :=
    sender.run_actions encode_datetime others
      (sender.set_not_empty (sender.not_empty (sender.self s) ++ [me]) s) in
  sender.wait_not_empty_cond encode_datetime me others s
  = if bool_decide (me ∈ sender.not_empty (sender.self (state_of w)))
    then (Block wait_not_empty, state_of w, release lock :: events_of w)
    else (Val tt, state_of w, release lock :: events_of w ++ [acquire lock]).
Proof.
  intros w. unfold sender.wait_not_empty_cond.
  rewrite bind_eq. unfold modify. triples.
  rewrite bind_emit. triples.
  rewrite (bind_val _ _ _ tt) by apply run_actions_val. triples.
  rewrite bind_get. fold w.
  case_bool_decide; [unfold block|unfold emit]; triples;
    by rewrite ?app_nil_r.
Qed.

(** X6.  A consumer that waits on the empty queue, when a request is added:
    if no other thread has been waiting for longer it is woken and takes that
    very request, leaving the queue empty; if one has, the [notify] of
    [add_request] goes to that thread, and this consumer stays waiting
    though the request is in the queue. *)
Theorem waiting_consumer_and_added_request
    me module url data files ts cb waits s :
  sender.queue (sender.self s) = [] ->
  let rd := mkRequestData (sender.id (sender.self s)) module url data files cb in
  let a :=
    sender.await_item encode_datetime me
      ([sender.do_add_request module url data files ts cb] :: waits) s in
  match sender.not_empty (sender.self s) with
  | [] =>
      outcome_of a = Val rd
      /\ sender.queue (sender.self (state_of a)) = []
      /\ sender.not_empty (sender.self (state_of a)) = []
  | _ :: longer =>
      outcome_of a = Block wait_not_empty
      /\ sender.queue (sender.self (state_of a)) = [rd]
      /\ sender.not_empty (sender.self (state_of a)) = longer ++ [me]
  end.
Proof.
  intros Hq rd a. subst a rd.
  rewrite await_item_eq, Hq, bind_eq, wait_not_empty_cond_eq. cbv zeta.
  destruct s as [h [i p sk qu ne un]]. simpl in Hq. subst.
  assert (forall s0,
    sender.run_actions encode_datetime
      [sender.do_add_request module url data files ts cb] s0
    = sender.add_request encode_datetime module url data files ts cb s0)
    as Hone.
  { intros s0. cbn [sender.run_actions sender.run_action].
    rewrite (bind_val _ _ _ tt) by by rewrite add_request_eq.
    rewrite add_request_eq. unfold ret. triples. by rewrite app_nil_r. }
  rewrite Hone, add_request_eq. triples.
  cbn [sender.not_empty sender.self sender.id sender.queue sender.set_not_empty
         sender.notify].
  destruct ne as [|w longer]; cbn [app drop].
  - rewrite bool_decide_false by apply not_elem_of_nil. triples.
    by rewrite await_item_eq.
  - rewrite bool_decide_true by (apply elem_of_app; right; by left).
    by triples.
Qed.

End skip_and_pause.

(** X1 at work: a skip is asked for, then the consumer runs. *)
Lemma skip_drops_the_sample_request :
  events_of (sender.process_request sample_encode 0 []
               [alone None] (sender.set_skip_current_flag true sample_sender))
  = [acquire lock; queue_popleft sample_request; release lock;
     acquire pause_lock; release pause_lock;
     acquire lock; release lock;
     on_request_processed sample_request; call_callback 7].
Proof.
  apply (skip_drops_the_next_request sample_encode 0 [] [] [] [] None
           (sender.set_skip_current_flag true sample_sender)
           sample_request []); reflexivity.
Defined.

(** X2 at work: three requests to skip, two requests in the queue. *)
Lemma three_skips_drop_one_request :
  let s :=
    state_of (sender.add_request sample_encode "GPSParser" "/gps" 2%positive
                None None None sample_sender) in
  submissions
    (sender.run_calls sample_encode
       (repeat (sender.by_other sender.do_set_skip_current) 3
        ++ [sender.by_consumer 0 [] [alone None];
            sender.by_consumer 0 [] [alone None]]) s).2
  = [("/gps", 2%positive, None)].
Proof.
  cbv zeta.
  apply (skip_requests_do_not_add_up sample_encode 0 2 None
           (state_of (sender.add_request sample_encode "GPSParser" "/gps"
                        2%positive None None None sample_sender))
           sample_request
           (mkRequestData 2 "GPSParser" "/gps" 2%positive None None) []);
    reflexivity.
Defined.

(** X3 at work: the queue is paused; a skip is asked for meanwhile. *)
Lemma paused_sample_queue_submits_nothing :
  outcome_of (sender.process_request sample_encode 0 []
                [sender.mkRound [] [sender.do_set_skip_current] [] [] None]
                (sender.set_paused_flag true sample_sender))
  = Block (wait_unpaused sample_request).
Proof.
  apply (paused_queue_submits_nothing sample_encode 0 [] []
           [sender.do_set_skip_current] [] [] None
           (sender.set_paused_flag true sample_sender) sample_request []);
    [reflexivity|reflexivity|].
  repeat constructor. discriminate.
Defined.

(** X4 at work: the API answers 503 and no one unpauses. *)
Lemma failed_sample_request_is_held :
  let r := sender.retry sample_encode 0 sample_request
             [alone (Some (raise_new APIError "503")); alone None]
             sample_sender in
  outcome_of r = Block (wait_unpaused sample_request)
  /\ submissions (events_of r) = [("/gps", 1%positive, None)].
Proof.
  cbv zeta.
  destruct (failure_holds_the_request_until_unpaused sample_encode 0
              sample_request (raise_new APIError "503") [] [] [] None []
              sample_sender) as (Ho & Hs & _); try reflexivity.
  - constructor.
  - split; assumption.
Defined.

(** X5 at work. *)
Lemma woken_consumer_submits_while_paused :
  let a :=
    sender.attempt sample_encode 0 sample_request
      (sender.mkRound []
         [sender.do_set_paused false; sender.do_set_paused true] [] [] None)
      (sender.set_paused_flag true sample_sender) in
  sender.paused (sender.self (state_of a)) = true
  /\ submissions (events_of a) = [("/gps", 1%positive, None)].
Proof.
  cbv zeta.
  destruct (wake_up_is_not_checked_again sample_encode 0 sample_request None
              (sender.set_paused_flag true sample_sender))
    as (_ & Hp & Hs); try reflexivity.
  split; assumption.
Defined.

(** X6 at work: the consumer waits on a new sender and a request comes. *)
Lemma waiting_consumer_takes_the_sample_request :
  outcome_of
    (sender.await_item sample_encode 0
       [[sender.do_add_request "GPSParser" "/gps" 1%positive None None
           (Some 7)]] (sender.init sample_heap))
  = Val sample_request.
Proof.
  apply (waiting_consumer_and_added_request sample_encode 0 "GPSParser" "/gps"
           1%positive None None (Some 7) [] (sender.init sample_heap)).
  reflexivity.
Defined.

(** ** The sender worker's loop *)

Section worker_loop.

Variable encode_datetime : datetime -> value.

Lemma processed_app t1 t2 :
  processed (t1 ++ t2) = processed t1 ++ processed t2.
Proof. apply omap_app. Qed.

Lemma popped_app t1 t2 : popped (t1 ++ t2) = popped t1 ++ popped t2.
Proof. apply omap_app. Qed.

Lemma retry_is_quiet me rd rounds s :
  processed (events_of (sender.retry encode_datetime me rd rounds s)) = []
  /\ popped (events_of (sender.retry encode_datetime me rd rounds s)) = [].
Proof.
  split.
  - apply quiet_silent. eapply Forall_impl; [apply only_retry|].
    apply from_retry_quiet.
  - eapply popped_from_retry, only_retry.
Qed.

(** A call of [process_request] either returns, having taken one request
    and announced it as processed, or does not return and has announced
    none. *)
Lemma process_request_processed me waits rounds s :
  let r := sender.process_request encode_datetime me waits rounds s in
  (outcome_of r = Val tt
   /\ exists rd, popped (events_of r) = [rd] /\ processed (events_of r) = [rd])
  \/ ((forall a, outcome_of r <> Val a)
      /\ processed (events_of r) = []
      /\ length (popped (events_of r)) <= 1).
Proof.
  intros r. subst r. rewrite process_request_eq. cbv zeta.
  pose proof (await_item_popped encode_datetime me waits s) as Ha.
  destruct (quiet_silent _ (only_await_item encode_datetime me waits s))
    as [Hq _].
  destruct (outcome_of (sender.await_item _ _ _ _)) as [rd|e|w]; [|done|].
  - destruct (retry_is_quiet me rd rounds
      (state_of (sender.await_item encode_datetime me waits s))) as [Hrq Hrp].
    destruct (outcome_of (sender.retry _ _ _ _ _)) as [ex|e|w]; triples;
      [left; split; [done|]; exists rd|right; split; [done|]..];
      unfold popped, processed, callback_events in *;
      change (acquire lock :: ?l) with ([acquire lock] ++ l);
      rewrite !omap_app, Ha, Hrp, Hq, Hrq; simpl;
      [by destruct (rd_callback rd)|split; [done|lia]..].
  - right. triples. destruct Ha as [_ Ha]. split; [done|].
    unfold popped, processed in *.
    change (acquire lock :: ?l) with ([acquire lock] ++ l).
    rewrite !omap_app, Ha, Hq. simpl. split; [done|lia].
Qed.

(** With no pass scripted, [process_request] does not return. *)
Lemma process_request_no_rounds me waits s a :
  outcome_of (sender.process_request encode_datetime me waits [] s) <> Val a.
Proof.
  rewrite process_request_eq. cbv zeta.
  destruct (outcome_of (sender.await_item _ _ _ _)); by triples.
Qed.

Lemma respects_run me scripts :
  respects (QtSenderWorker.run encode_datetime me scripts).
Proof.
  induction scripts as [|[waits rounds] scripts IH]; simpl.
  - apply respects_process_request.
  - apply respects_bind; [apply respects_process_request|done].
Qed.

Lemma run_in_order me scripts s :
  let r := QtSenderWorker.run encode_datetime me scripts s in
  (forall a, outcome_of r <> Val a)
  /\ processed (events_of r) `prefix_of` popped (events_of r)
  /\ length (popped (events_of r)) <= S (length (processed (events_of r))).
Proof.
  revert s. induction scripts as [|[waits rounds] scripts IH]; intros s;
    cbn [QtSenderWorker.run].
  - destruct (process_request_processed me [] [] s)
      as [(Ho & _)|(Ho & Hpr & Hpo)].
    + by apply process_request_no_rounds in Ho.
    + cbv zeta. rewrite Hpr. split; [done|].
      split; [apply prefix_nil|simpl; lia].
  - cbv zeta. rewrite bind_eq.
    destruct (process_request_processed me waits rounds s)
      as [(Ho & rd & Hpo & Hpr)|(Ho & Hpr & Hpo)].
    + rewrite Ho. triples.
      destruct (IH (state_of (sender.process_request encode_datetime me waits
                                rounds s))) as (I1 & I2 & I3).
      split; [done|]. rewrite processed_app, popped_app, Hpo, Hpr.
      split; [by apply prefix_app|]. rewrite !length_app. simpl. lia.
    + destruct (outcome_of (sender.process_request _ _ _ _ _)) as [a|e|w];
        [by destruct (Ho a)|..]; triples; rewrite Hpr;
        (split; [done|]); (split; [apply prefix_nil|simpl; lia]).
Qed.

(** X7.  The loop of the sender worker never returns -- it goes on until an
    exception that [process_request] does not catch ends it -- and it works
    through the queue in order: the requests it announces as processed are,
    in order, the requests it took from the queue, all of them but possibly
    the last, which it is still working on; and the requests it took are, in
    order, the first ones of the queue as it was found, followed by what has
    been added since. *)
Theorem worker_loop_processes_in_queue_order me scripts s :
  let r := QtSenderWorker.run encode_datetime me scripts s in
  (forall a, outcome_of r <> Val a)
  /\ processed (events_of r) `prefix_of` popped (events_of r)
  /\ length (popped (events_of r)) <= S (length (processed (events_of r)))
  /\ popped (events_of r)
     `prefix_of` (sender.queue (sender.self s) ++ appended (events_of r)).
Proof.
  intros r. subst r. destruct (run_in_order me scripts s) as (H1 & H2 & H3).
  repeat split; try done.
  destruct (respects_run me scripts s) as (_ & _ & <-).
  by apply prefix_app_r.
Qed.

Lemma submissions_app t1 t2 :
  submissions (t1 ++ t2) = submissions t1 ++ submissions t2.
Proof. apply omap_app. Qed.

Lemma only_from_await me waits :
  only from_await (sender.await_item encode_datetime me waits).
Proof.
  induction waits as [|others waits IH]; intros s; rewrite await_item_eq;
    destruct (sender.queue (sender.self s)) as [|rd q].
  - apply only_bind; [|intros; apply only_block].
    eapply only_mono; [|apply only_wait_not_empty_cond]. intros e He. by left.
  - apply Forall_cons. split; [right; by exists rd|constructor].
  - apply only_bind; [|done].
    eapply only_mono; [|apply only_wait_not_empty_cond]. intros e He. by left.
  - apply Forall_cons. split; [right; by exists rd|constructor].
Qed.

Lemma submissions_from_await t : Forall from_await t -> submissions t = [].
Proof.
  induction 1 as [|e t He _ IH]; [done|]. unfold submissions in *.
  destruct He as [He|[rd ->]]; [by destruct e|done].
Qed.

(** The submissions of one call of [process_request] are all of the request
    it took. *)
Lemma process_request_submissions me waits rounds s :
  let r := sender.process_request encode_datetime me waits rounds s in
  exists ks,
    length ks = length (popped (events_of r))
    /\ submissions (events_of r) = each_in_turn ks (popped (events_of r)).
Proof.
  intros r. subst r. rewrite process_request_eq. cbv zeta.
  pose proof (submissions_from_await _ (only_from_await me waits s)) as Hsa.
  pose proof (await_item_popped encode_datetime me waits s) as Ha.
  destruct (outcome_of (sender.await_item _ _ _ _)) as [rd|e|w]; [|done|].
  - pose proof (submissions_from_retry rd _ (only_retry encode_datetime me rd
      rounds (state_of (sender.await_item encode_datetime me waits s))))
      as Hsr.
    destruct (retry_is_quiet me rd rounds
      (state_of (sender.await_item encode_datetime me waits s))) as [_ Hrp].
    set (loop := sender.retry _ _ _ _ _) in *.
    apply (replicate_as_Forall_2 _ _ _ eq_refl) in Hsr.
    change (rd_url rd, rd_data rd, rd_files rd) with (submitted_fields rd)
      in Hsr.
    assert (submissions (on_request_processed rd :: callback_events rd) = []
            /\ popped (on_request_processed rd :: callback_events rd) = [])
      as [Hst Hpt].
    { unfold callback_events. by destruct (rd_callback rd). }
    set (n := length (submissions (events_of loop))) in *. clearbody n.
    exists [n].
    destruct (outcome_of loop); triples;
      change (acquire lock :: ?l) with ([acquire lock] ++ l);
      rewrite ?popped_app, ?submissions_app, ?Ha, ?Hrp, ?Hsa, ?Hst, ?Hpt;
      rewrite <- Hsr; unfold each_in_turn; simpl; by rewrite ?app_nil_r.
  - triples. destruct Ha as [_ Ha]. exists [].
    change (acquire lock :: ?l) with ([acquire lock] ++ l).
    by rewrite popped_app, submissions_app, Ha, Hsa.
Qed.

(** X8.  The sender worker submits the requests in the order in which it
    takes them from the queue: what it submits is the first request it took,
    some number of times (none if it was skipped, more than one if
    submissions failed), then the second, and so on; no request is submitted
    once a later one has been. *)
Theorem worker_loop_submits_in_queue_order me scripts s :
  let r := QtSenderWorker.run encode_datetime me scripts s in
  exists ks,
    length ks = length (popped (events_of r))
    /\ submissions (events_of r) = each_in_turn ks (popped (events_of r)).
Proof.
  revert s. induction scripts as [|[waits rounds] scripts IH]; intros s;
    cbn [QtSenderWorker.run]; [apply process_request_submissions|].
  cbv zeta. rewrite bind_eq.
  destruct (process_request_submissions me waits rounds s) as (ks1 & Hl1 & H1).
  destruct (outcome_of (sender.process_request _ _ _ _ _)); triples;
    [|by exists ks1..].
  destruct (IH (state_of (sender.process_request encode_datetime me waits
                            rounds s))) as (ks2 & Hl2 & H2).
  exists (ks1 ++ ks2). rewrite popped_app, submissions_app, H1, H2.
  split; [rewrite !length_app; lia|].
  unfold each_in_turn. by rewrite zip_with_app, concat_app.
Qed.

End worker_loop.

(** ** More on the dispatcher *)

Section dispatch_more.

Variable encode_datetime : datetime -> value.

(** Either no parser claims the line or there is a first one that does. *)
Lemma parse_line_with_split (parsers : list outputparser.Parser) line :
  (forall p, p ∈ parsers -> truthy (outputparser.can_parse p line) = false)
  \/ exists parsers1 P parsers2,
       parsers = parsers1 ++ P :: parsers2
       /\ (forall p, p ∈ parsers1 ->
                     truthy (outputparser.can_parse p line) = false)
       /\ truthy (outputparser.can_parse P line) = true.
Proof.
  induction parsers as [|p parsers IH].
  - left. by intros p ?%elem_of_nil.
  - destruct (truthy (outputparser.can_parse p line)) eqn:Hp.
    + right. exists [], p, parsers. split; [done|]. split; [|done].
      by intros q ?%elem_of_nil.
    + destruct IH as [IH|(ps1 & P & ps2 & -> & H1 & HP)].
      * left. intros q [->|?]%elem_of_cons; auto.
      * right. exists (p :: ps1), P, ps2. split; [done|]. split; [|done].
        intros q [->|?]%elem_of_cons; auto.
Qed.

Lemma parse_line_with_dispatched parsers line now st :
  dispatched line now st
    (state_of (outputparser.parse_line_with encode_datetime parsers line now st))
    (events_of (outputparser.parse_line_with encode_datetime parsers line now
                  st)).
Proof.
  destruct (parse_line_with_split parsers line)
    as [Hnone|(ps1 & P & ps2 & -> & H1 & HP)].
  - rewrite <- (app_nil_r parsers), parse_line_with_skip by done.
    left. split; [done|by left].
  - rewrite parse_line_with_skip, parse_line_with_claimed by done.
    rewrite parse_line_with_one_eq by done. cbv zeta.
    destruct (outputparser.parse P _ _) as [h [[d|]|e]]; cbn [fst snd].
    + destruct (truthy_dict h (Some d)).
      * right. by eexists _, _.
      * left. split; [done|]. right. eexists. by right.
    + left. split; [done|]. right. eexists. by right.
    + destruct (isinstance e [ParseError]).
      * left. split; [done|]. right. eexists. by left.
      * left. split; [done|]. by left.
Qed.

Lemma rstrip_idempotent chars line :
  outputparser.rstrip chars (outputparser.rstrip chars line)
  = outputparser.rstrip chars line.
Proof.
  induction line as [|c line IH]; [done|].
  cbn [outputparser.rstrip].
  destruct (outputparser.rstrip chars line) as [|c' r] eqn:Hr.
  - case_bool_decide as Hc; [done|].
    cbn [outputparser.rstrip]. by rewrite bool_decide_false.
  - cbn [outputparser.rstrip] in *. by rewrite IH.
Qed.

Lemma announced_app t1 t2 : announced (t1 ++ t2) = announced t1 ++ announced t2.
Proof. apply omap_app. Qed.

Lemma appended_app t1 t2 : appended (t1 ++ t2) = appended t1 ++ appended t2.
Proof. apply omap_app. Qed.

Lemma ingested_quiet st st' t :
  sender.self (outputparser.sender st') = sender.self (outputparser.sender st) ->
  forallb (fun e => negb (queue_event e)) t = true ->
  announced t = [] ->
  ingested 0 st st' t.
Proof.
  intros Hs Ht Ha.
  assert (queue_effect (outputparser.sender st) t (outputparser.sender st'))
    as Hq by (apply queue_effect_quiet; by rewrite ?Hs).
  assert (appended t = [] /\ popped t = []) as [Hap Hpo].
  { clear -Ht. induction t as [|e t IH]; [done|].
    simpl in Ht. apply andb_prop in Ht as [He Ht].
    destruct (IH Ht) as [IHa IHp].
    unfold appended, popped in *. by destruct e. }
  split; [done|]. rewrite Hap, Hpo, Ha.
  split; [done|]. split; [simpl; lia|constructor].
Qed.

Lemma ingested_trans n1 n2 st st1 st2 t1 t2 :
  ingested n1 st st1 t1 -> ingested n2 st1 st2 t2 ->
  ingested (n1 + n2) st st2 (t1 ++ t2).
Proof.
  intros (Hq1 & Hp1 & Hl1 & Ha1) (Hq2 & Hp2 & Hl2 & Ha2).
  split; [by eapply queue_effect_trans|].
  rewrite popped_app, appended_app, announced_app, Hp1, Hp2, length_app.
  split; [done|]. split; [lia|]. by apply Forall_app.
Qed.

Lemma ingested_weaken n m st st' t :
  n <= m -> ingested n st st' t -> ingested m st st' t.
Proof.
  intros Hnm (Hq & Hp & Hl & Ha). split; [done|]. split; [done|].
  split; [lia|done].
Qed.

Lemma ingested_announcing st st' (l : OutputLine) t :
  sender.self (outputparser.sender st') = sender.self (outputparser.sender st) ->
  stripped (line_text l) ->
  t = [on_line_parse_failed l] \/ t = [on_line_parsed l] ->
  ingested 0 st st' t.
Proof.
  intros Hs Hl Ht.
  destruct (ingested_quiet st st' [] Hs) as (Hqe & _); [done..|].
  destruct Ht as [-> | ->]; (split; [done|]); (split; [done|]);
    (split; [simpl; lia|]); (constructor; [exact Hl|constructor]).
Qed.

Lemma dispatched_ingested line now st st' t :
  stripped line -> dispatched line now st st' t -> ingested 1 st st' t.
Proof.
  intros Hline [[Hs [->|[msg Ht]]]|(msg & rd & -> & Hid & Hid' & Hq)].
  - apply (ingested_weaken 0); [lia|]. by apply ingested_quiet.
  - apply (ingested_weaken 0); [lia|].
    by apply (ingested_announcing _ _ (mkOutputLine msg now line)).
  - split; [|split; [done|split; [simpl; lia|]]];
      [|constructor; [exact Hline|constructor]].
    split; [|split].
    + unfold appended. simpl. rewrite Hid.
      change (Z.of_nat 1) with (0 + 1)%Z.
      rewrite seqZ_app, seqZ_nil, (seqZ_cons _ 1), seqZ_nil by lia.
      simpl. f_equal. lia.
    + by rewrite Hid'.
    + by rewrite Hq.
Qed.

Lemma poll_ingested raw now st :
  ingested 1 st (state_of (outputparser.poll encode_datetime raw now st))
    (events_of (outputparser.poll encode_datetime raw now st)).
Proof.
  unfold outputparser.poll.
  destruct (String.eqb raw "") eqn:Hraw.
  { apply (ingested_weaken 0); [lia|]. by apply ingested_quiet. }
  set (line := outputparser.rstrip _ raw).
  destruct (String.eqb line "") eqn:Hline.
  { apply (ingested_weaken 0); [lia|]. by apply ingested_quiet. }
  assert (stripped line) as Hstripped.
  { split; [by apply String.eqb_neq|]. apply rstrip_idempotent. }
  pose proof (parse_line_with_dispatched
    (outputparser._parsers (outputparser.self st)) line now st) as Hd.
  apply dispatched_ingested in Hd; [|done].
  unfold try_except, outputparser.parse_line. rewrite bind_get.
  set (r := outputparser.parse_line_with _ _ _ _ _) in *.
  unfold state_of, events_of in *.
  destruct r as [[[a|e|w] s1] t1]; cbn [fst snd] in *; [done| |done].
  destruct (isinstance e [ParseError]); [|done].
  change (ingested (1 + 0) st s1
            (t1 ++ [log (outputparser.logger_for e) exception
                      ("Could not parse line: " +:+ line +:+ " ("
                       +:+ exc_msg e +:+ ")")])).
  eapply ingested_trans; [done|]. by apply ingested_quiet.
Qed.

Lemma read_loop_ingested ticks st :
  ingested (reads ticks) st
    (state_of (outputparser.read_loop encode_datetime ticks st))
    (events_of (outputparser.read_loop encode_datetime ticks st)).
Proof.
  revert st. induction ticks as [|[|raw now] ticks IH]; intros st;
    destruct (outputparser.is_terminated (outputparser.self st)) eqn:Hterm;
    try (rewrite read_loop_terminated by done;
         apply (ingested_weaken 0); [lia|by apply ingested_quiet]).
  - rewrite read_loop_nil by done. by apply ingested_quiet.
  - rewrite read_loop_mark by done.
    apply (ingested_weaken 0); [lia|]. by apply ingested_quiet.
  - rewrite read_loop_readline by done. rewrite bind_eq.
    pose proof (poll_ingested raw now st) as Hpoll.
    destruct (outcome_of (outputparser.poll encode_datetime raw now st));
      triples; cbn [reads].
    + apply (ingested_trans 1 (reads ticks) _ _ _ _ _ Hpoll), IH.
    + apply (ingested_weaken 1); [lia|done].
    + apply (ingested_weaken 1); [lia|done].
Qed.

(** X12.  However the log grows and whatever the parsers do, [parse_file]
    takes nothing from the queue; the requests it queues get the sender's
    next identifiers, one after the other; and it queues at most one request
    for each pass of its loop. *)
Theorem parse_file_only_appends opened ticks st :
  let r := outputparser.parse_file encode_datetime opened ticks st in
  let snd := sender.self (outputparser.sender st) in
  let snd' := sender.self (outputparser.sender (state_of r)) in
  popped (events_of r) = []
  /\ length (appended (events_of r)) <= reads ticks
  /\ rd_id <$> appended (events_of r)
     = seqZ (sender.id snd) (Z.of_nat (length (appended (events_of r))))
  /\ sender.id snd'
     = (sender.id snd + Z.of_nat (length (appended (events_of r))))%Z
  /\ sender.queue snd' = sender.queue snd ++ appended (events_of r).
Proof.
  intros r snd snd'. subst r snd snd'. destruct opened as [e|].
  - cbn. rewrite Z.add_0_r, app_nil_r. repeat split. lia.
  - cbn [outputparser.parse_file].
    destruct (read_loop_ingested ticks st) as ((Hi & Hn & Hq) & Hp & Hl & _).
    rewrite Hp in Hq. by repeat split.
Qed.

(** X11.  Every line [parse_file] gives to the line observers, as parsed or
    as failed, is not empty and has no carriage return or line feed at its
    end. *)
Theorem announced_lines_are_stripped opened ticks st :
  Forall (fun l =>
            line_text l <> ""
            /\ outputparser.rstrip [outputparser.CR; outputparser.LF]
                 (line_text l) = line_text l)
    (announced (events_of
       (outputparser.parse_file encode_datetime opened ticks st))).
Proof.
  destruct opened as [e|]; [constructor|].
  cbn [outputparser.parse_file].
  by destruct (read_loop_ingested ticks st) as (_ & _ & _ & Ha).
Qed.

Lemma parse_line_first_claiming st parsers1 P parsers2 line now :
  outputparser._parsers (outputparser.self st) = parsers1 ++ P :: parsers2 ->
  (forall p, p ∈ parsers1 -> truthy (outputparser.can_parse p line) = false) ->
  truthy (outputparser.can_parse P line) = true ->
  outputparser.parse_line encode_datetime line now st
  = outputparser.parse_line_with encode_datetime [P] line now st.
Proof.
  intros Hps H1 HP. unfold outputparser.parse_line.
  rewrite bind_get, Hps, parse_line_with_skip by done.
  by rewrite parse_line_with_claimed.
Qed.

(** X9.  [parse_line] hands the line to the first parser, in the order of
    [_parsers], that claims it, also when parsers after it would claim it
    too, and to no other.  The line observers are told of the line once, with
    the message id that parser gave -- unless its [parse] raises something
    that is not a [ParseError], in which case they are not told --, and
    whatever is queued carries the class name and the url of that parser, no
    files and no callback. *)
Theorem first_claiming_parser_decides st parsers1 P parsers2 line now :
  outputparser._parsers (outputparser.self st) = parsers1 ++ P :: parsers2 ->
  (forall p, p ∈ parsers1 -> truthy (outputparser.can_parse p line) = false) ->
  truthy (outputparser.can_parse P line) = true ->
  let output_line := mkOutputLine (outputparser.can_parse P line) now line in
  let r := outputparser.parse_line encode_datetime line now st in
  r = outputparser.parse_line_with encode_datetime [P] line now st
  /\ announced (events_of r)
     = match (outputparser.parse P output_line
                (sender.heap (outputparser.sender st))).2 with
       | outputparser.raises e =>
           if isinstance e [ParseError] then [output_line] else []
       | outputparser.returns _ => [output_line]
       end
  /\ Forall (fun rd =>
               rd_module rd = outputparser.class_name P
               /\ rd_url rd = outputparser.url P
               /\ rd_files rd = None /\ rd_callback rd = None)
       (appended (events_of r)).
Proof.
  intros Hps H1 HP output_line r. subst r.
  rewrite (parse_line_first_claiming _ _ _ _ _ _ Hps H1 HP).
  split; [done|].
  rewrite parse_line_with_one_eq by done. cbv zeta. fold output_line.
  destruct (outputparser.parse P output_line _) as [h [[d|]|e]]; cbn [fst snd].
  - destruct (truthy_dict h (Some d)); split; by repeat constructor.
  - split; by repeat constructor.
  - destruct (isinstance e [ParseError]); split; by repeat constructor.
Qed.

(** X10.  When the parser that claims the line returns no record, or a
    record that is empty, [parse_line] tells the line-parsed observers and
    does nothing else: no request is queued, no identifier is used and no
    timestamp is written. *)
Theorem empty_record_queues_nothing st parsers1 P parsers2 line now h d :
  outputparser._parsers (outputparser.self st) = parsers1 ++ P :: parsers2 ->
  (forall p, p ∈ parsers1 -> truthy (outputparser.can_parse p line) = false) ->
  truthy (outputparser.can_parse P line) = true ->
  let output_line := mkOutputLine (outputparser.can_parse P line) now line in
  outputparser.parse P output_line (sender.heap (outputparser.sender st))
    = (h, outputparser.returns d) ->
  d = None \/ (exists r, d = Some r /\ h !! r = Some ∅) ->
  outputparser.parse_line encode_datetime line now st
  = (Val tt,
     outputparser.set_sender (sender.set_heap h (outputparser.sender st)) st,
     [on_line_parsed output_line]).
Proof.
  intros Hps H1 HP output_line Hparse Hd.
  rewrite (parse_line_first_claiming _ _ _ _ _ _ Hps H1 HP).
  rewrite parse_line_with_one_eq by done. cbv zeta. fold output_line.
  rewrite Hparse. cbn [fst snd].
  destruct Hd as [->|(r & -> & Hr)]; [done|].
  unfold truthy_dict. rewrite Hr. by rewrite bool_decide_true.
Qed.


End dispatch_more.

(** X9 at work: the sample GPS parser comes first and claims the line. *)
Lemma gps_parser_decides :
  announced (events_of
    (outputparser.parse_line sample_encode "$GPGGA,50" 5%Z
       sample_parsers_state))
  = [mkOutputLine (VStr "GPGGA") 5%Z "$GPGGA,50"].
Proof.
  apply (first_claiming_parser_decides sample_encode sample_parsers_state
           [] sample_gps [sample_telemetry; sample_kundt] "$GPGGA,50" 5%Z);
    try reflexivity.
  intros p Hp. by apply elem_of_nil in Hp.
Defined.

(** X10 at work: the sample telemetry parser has nothing to send. *)
Lemma telemetry_line_queues_nothing :
  outputparser.parse_line sample_encode "T,21.5" 5%Z sample_parsers_state
  = (Val tt, sample_parsers_state,
     [on_line_parsed (mkOutputLine (VStr "T") 5%Z "T,21.5")]).
Proof.
  apply (empty_record_queues_nothing sample_encode sample_parsers_state
           [sample_gps] sample_telemetry [sample_kundt] "T,21.5" 5%Z
           sample_heap None); try reflexivity.
  - intros p Hp. apply elem_of_cons in Hp as [->|Hp]; [reflexivity|].
    by apply elem_of_nil in Hp.
  - by left.
Defined.


(** ** More on the parser manager *)

Section manager_more.

Variable encode_datetime : datetime -> value.
Variable PARSERS : list outputparser.Parser.

Lemma manager_parse_file_idle p s :
  outputparser.Manager.is_running (outputparser.Manager.self s) = false ->
  outputparser.Manager.parse_file PARSERS (inl p) s
  = (Val tt,
     outputparser.Manager.mkState
       (outputparser.mkParserManager
          (Some (outputparser.mkWorker p
                   (outputparser.mkBaseOutputParser PARSERS false) false true))
          (Some p)
          (outputparser.terminated_by_user (outputparser.Manager.self s)))
       (outputparser.Manager.sender s),
     [log "Parser" info ("Starting parser: " +:+ p)]).
Proof.
  intros H. unfold outputparser.Manager.parse_file. rewrite bind_get, H.
  reflexivity.
Qed.

Lemma manager_parse_file_busy resolved s :
  outputparser.Manager.is_running (outputparser.Manager.self s) = true ->
  outputparser.Manager.parse_file PARSERS resolved s
  = (Exc (raise_new RuntimeError "The worker is already running"), s, []).
Proof.
  intros H. unfold outputparser.Manager.parse_file. by rewrite bind_get, H.
Qed.

Lemma on_parser_terminated_eq s :
  (outputparser.Manager._on_parser_terminated ;;;
   emit (signal "parser_terminated")) s
  = (Val tt, s,
     [log "Parser"
        (if outputparser.terminated_by_user (outputparser.Manager.self s)
         then info else warning)
        (if outputparser.terminated_by_user (outputparser.Manager.self s)
         then "Parser was terminated by the user"
         else "Parser terminated unexpectedly");
      signal "parser_terminated"]).
Proof.
  unfold outputparser.Manager._on_parser_terminated.
  rewrite bind_eq, bind_get.
  by destruct (outputparser.terminated_by_user (outputparser.Manager.self s)).
Qed.

(** What the manager is left with after its running worker [w] has run on:
    [finished] tells whether [run] has returned. *)
Lemma worker_runs_state opened ticks s w :
  outputparser.worker (outputparser.Manager.self s) = Some w ->
  outputparser.isRunning w = true ->
  let r := outputparser.Manager.worker_runs encode_datetime opened ticks s in
  outputparser.terminated_by_user (outputparser.Manager.self (state_of r))
    = outputparser.terminated_by_user (outputparser.Manager.self s)
  /\ outputparser.Manager.is_running (outputparser.Manager.self (state_of r))
     = match outcome_of r with Val _ => false | _ => true end
  /\ match outcome_of r with
     | Val _ =>
         exists t0,
           events_of r
           = t0 ++ [log "Parser"
                      (if outputparser.terminated_by_user
                            (outputparser.Manager.self s)
                       then info else warning)
                      (if outputparser.terminated_by_user
                            (outputparser.Manager.self s)
                       then "Parser was terminated by the user"
                       else "Parser terminated unexpectedly");
                    signal "parser_terminated"]
     | _ => True
     end.
Proof.
  intros Hw Hrun r. subst r. unfold outputparser.Manager.worker_runs.
  rewrite Hw, Hrun.
  destruct (outputparser.run _ _ _ _) as [[[[]|e|b] ps] t];
    [|by repeat split..].
  rewrite on_parser_terminated_eq. triples.
  cbn [outputparser.Manager.self outputparser.Manager.set_worker
         outputparser.terminated_by_user outputparser.Manager.is_running
         outputparser.worker outputparser.isRunning negb].
  split; [done|]. split; [done|].
  eexists (_ ++ t). by rewrite app_assoc.
Qed.


(** X14.  A manager that is not running starts a worker on the resolved
    path, with its stop flag clear.  From then on, and as long as the worker
    has not ended, every [parse_file] raises "The worker is already running"
    and changes nothing; once the worker has ended the manager is not running
    and [parse_file] starts a new worker. *)
Theorem one_worker_at_a_time p resolved opened ticks p' s :
  outputparser.Manager.is_running (outputparser.Manager.self s) = false ->
  let started := outputparser.Manager.parse_file PARSERS (inl p) s in
  let s1 := state_of started in
  let ran := outputparser.Manager.worker_runs encode_datetime opened ticks s1 in
  outcome_of started = Val tt
  /\ outputparser.worker (outputparser.Manager.self s1)
     = Some (outputparser.mkWorker p
               (outputparser.mkBaseOutputParser PARSERS false) false true)
  /\ outputparser.path (outputparser.Manager.self s1) = Some p
  /\ outputparser.Manager.sender s1 = outputparser.Manager.sender s
  /\ outputparser.Manager.parse_file PARSERS resolved s1
     = (Exc (raise_new RuntimeError "The worker is already running"), s1, [])
  /\ (forall w, outcome_of ran = Block w ->
        outputparser.Manager.parse_file PARSERS resolved (state_of ran)
        = (Exc (raise_new RuntimeError "The worker is already running"),
           state_of ran, []))
  /\ (outcome_of ran = Val tt ->
      outputparser.Manager.is_running
        (outputparser.Manager.self (state_of ran)) = false
      /\ outcome_of (outputparser.Manager.parse_file PARSERS (inl p')
                      (state_of ran)) = Val tt
      /\ outputparser.Manager.is_running
           (outputparser.Manager.self
              (state_of (outputparser.Manager.parse_file PARSERS (inl p')
                           (state_of ran)))) = true).
Proof.
  intros Hidle started s1 ran. subst ran s1 started.
  rewrite manager_parse_file_idle by done. triples.
  set (s1 := outputparser.Manager.mkState _ _).
  destruct (worker_runs_state opened ticks s1 _ eq_refl eq_refl)
    as (_ & Hrun & _).
  cbv zeta in Hrun.
  split; [done|]. split; [done|]. split; [done|]. split; [done|].
  split; [by apply manager_parse_file_busy|].
  split.
  - intros w Hb. apply manager_parse_file_busy. by rewrite Hrun, Hb.
  - intros Ho. rewrite Ho in Hrun. split; [done|].
    rewrite manager_parse_file_idle by done. by triples.
Qed.

(** X15.  [terminate] on a manager that is not running changes nothing.  On
    one whose worker runs it records that the user asked for the end and sets
    the worker's stop flag; the worker, once in its loop, then ends at its
    next check without reading one more line, and its end is logged as
    "Parser was terminated by the user". *)
Theorem terminate_ends_the_worker_at_its_next_check ticks idle s w :
  outputparser.Manager.is_running (outputparser.Manager.self idle) = false ->
  outputparser.worker (outputparser.Manager.self s) = Some w ->
  outputparser.isRunning w = true ->
  let s1 := state_of (outputparser.Manager.terminate s) in
  let ran := outputparser.Manager.worker_runs encode_datetime None ticks s1 in
  outputparser.Manager.terminate idle = (Val tt, idle, [])
  /\ outcome_of (outputparser.Manager.terminate s) = Val tt
  /\ events_of (outputparser.Manager.terminate s) = []
  /\ outputparser.terminated_by_user (outputparser.Manager.self s1) = true
  /\ outcome_of ran = Val tt
  /\ events_of ran
     = (if outputparser.w_opened w then [] else [signal "parser_started"])
       ++ [log "Parser" info "Parser was terminated by the user";
           signal "parser_terminated"]
  /\ outputparser.Manager.is_running
       (outputparser.Manager.self (state_of ran)) = false
  /\ outputparser.Manager.sender (state_of ran)
     = outputparser.Manager.sender s.
Proof.
  intros Hidle Hw Hrun s1 ran. subst ran s1.
  split.
  { unfold outputparser.Manager.terminate. by rewrite bind_get, Hidle. }
  assert (outputparser.Manager.terminate s
          = (Val tt,
             outputparser.Manager.mkState
               (outputparser.mkParserManager
                  (Some (outputparser.mkWorker (outputparser.w_path w)
                           (outputparser.mkBaseOutputParser
                              (outputparser._parsers (outputparser.w_self w))
                              true)
                           (outputparser.w_opened w) true))
                  (outputparser.path (outputparser.Manager.self s)) true)
               (outputparser.Manager.sender s), [])) as ->.
  { unfold outputparser.Manager.terminate, outputparser.Manager.is_running.
    rewrite bind_get, Hw, Hrun.
    unfold bind, modify, outputparser.Manager.worker_mark_terminated. simpl.
    by rewrite Hw, Hrun. }
  triples. unfold outputparser.Manager.worker_runs.
  cbn [outputparser.Manager.self outputparser.worker outputparser.isRunning
         outputparser.w_opened outputparser.w_self outputparser.Manager.sender].
  assert (outputparser.run encode_datetime None ticks
            (outputparser.mkState
               (outputparser.mkBaseOutputParser
                  (outputparser._parsers (outputparser.w_self w)) true)
               (outputparser.Manager.sender s))
          = (Val tt,
             outputparser.mkState
               (outputparser.mkBaseOutputParser
                  (outputparser._parsers (outputparser.w_self w)) true)
               (outputparser.Manager.sender s), [])) as Hrun'.
  { unfold outputparser.run, try_except.
    cbn [outputparser.parse_file]. by rewrite read_loop_terminated. }
  destruct (outputparser.w_opened w); rewrite Hrun'; repeat split.
Qed.

(** X16.  When [os.open] fails in the worker with an [OSError], the caller
    of [parse_file] has long been given a normal return: the failure shows
    only in the log -- "Could not parse file" from the worker, then, on a
    manager whose user never asked for an end, "Parser terminated
    unexpectedly" -- and in the manager no longer running; nothing is read
    and the sender is not touched. *)
Theorem open_failure_shows_in_the_log_only p e ticks s :
  outputparser.Manager.is_running (outputparser.Manager.self s) = false ->
  outputparser.terminated_by_user (outputparser.Manager.self s) = false ->
  isinstance e [OSError] = true ->
  let r :=
    outputparser.Manager.run_calls encode_datetime PARSERS
      [outputparser.Manager.call_parse_file (inl p);
       outputparser.Manager.thread_runs (Some e) ticks] s in
  outcome_of (outputparser.Manager.parse_file PARSERS (inl p) s) = Val tt
  /\ outcome_of r = Val tt
  /\ events_of r
     = [log "Parser" info ("Starting parser: " +:+ p);
        signal "parser_started";
        log "Parser" exception ("Could not parse file (" +:+ exc_msg e +:+ ")");
        log "Parser" warning "Parser terminated unexpectedly";
        signal "parser_terminated"]
  /\ outputparser.Manager.is_running
       (outputparser.Manager.self (state_of r)) = false
  /\ outputparser.Manager.sender (state_of r) = outputparser.Manager.sender s.
Proof.
  intros Hidle Huser He r. subst r.
  cbn [outputparser.Manager.run_calls outputparser.Manager.run_call].
  rewrite bind_eq, manager_parse_file_idle by done. triples.
  rewrite Huser.
  assert (forall ps0,
            outputparser.run encode_datetime (Some e) ticks ps0
            = (Val tt, ps0,
               [log "Parser" exception
                  ("Could not parse file (" +:+ exc_msg e +:+ ")")]))
    as Hrun.
  { intros ps0. unfold outputparser.run, try_except.
    cbn [outputparser.parse_file]. unfold raise. by rewrite He. }
  rewrite bind_eq. unfold outputparser.Manager.worker_runs.
  cbn [outputparser.Manager.self outputparser.worker outputparser.isRunning
         outputparser.w_opened outputparser.w_self outputparser.Manager.sender].
  rewrite Hrun, on_parser_terminated_eq. triples.
  unfold ret. triples. repeat split.
Qed.



End manager_more.

(** X14 at work: a new manager starts a worker; the log has nothing yet. *)
Lemma second_start_is_refused :
  let s1 :=
    state_of (outputparser.Manager.parse_file [sample_gps] (inl "/data/a.log")
                (outputparser.Manager.init (sender.init sample_heap))) in
  outcome_of (outputparser.Manager.parse_file [sample_gps]
                (inl "/data/b.log") s1)
  = Exc (raise_new RuntimeError "The worker is already running").
Proof.
  cbv zeta.
  destruct (one_worker_at_a_time sample_encode [sample_gps] "/data/a.log"
              (inl "/data/b.log") None [] "/data/c.log"
              (outputparser.Manager.init (sender.init sample_heap)) eq_refl)
    as (_ & _ & _ & _ & H & _).
  cbv zeta in H. by rewrite H.
Defined.

(** X15 at work: the user stops a worker that has three lines waiting. *)
Lemma stopped_worker_reads_no_more :
  let s :=
    state_of (outputparser.Manager.parse_file [sample_gps] (inl "/data/a.log")
                (outputparser.Manager.init (sender.init sample_heap))) in
  events_of
    (outputparser.Manager.worker_runs sample_encode None
       [outputparser.readline ("$GPGGA,50" +:+ CRLF) 1%Z;
        outputparser.readline ("$GPGGA,51" +:+ CRLF) 2%Z;
        outputparser.readline ("$GPGGA,52" +:+ CRLF) 3%Z]
       (state_of (outputparser.Manager.terminate s)))
  = [signal "parser_started";
     log "Parser" info "Parser was terminated by the user";
     signal "parser_terminated"].
Proof.
  cbv zeta.
  apply (terminate_ends_the_worker_at_its_next_check sample_encode
           [outputparser.readline ("$GPGGA,50" +:+ CRLF) 1%Z;
            outputparser.readline ("$GPGGA,51" +:+ CRLF) 2%Z;
            outputparser.readline ("$GPGGA,52" +:+ CRLF) 3%Z]
           (outputparser.Manager.init (sender.init sample_heap))
           (state_of (outputparser.Manager.parse_file [sample_gps]
                        (inl "/data/a.log")
                        (outputparser.Manager.init (sender.init sample_heap))))
           (outputparser.mkWorker "/data/a.log"
              (outputparser.mkBaseOutputParser [sample_gps] false) false true));
    reflexivity.
Defined.

(** X16 at work: the log file cannot be opened. *)
Lemma unreadable_log_is_only_logged :
  outputparser.Manager.is_running
    (outputparser.Manager.self
       (state_of (outputparser.Manager.run_calls sample_encode [sample_gps]
                    [outputparser.Manager.call_parse_file (inl "/data/b.log");
                     outputparser.Manager.thread_runs
                       (Some (raise_new OSError "Permission denied")) []]
                    (outputparser.Manager.init (sender.init sample_heap)))))
  = false.
Proof.
  apply (open_failure_shows_in_the_log_only sample_encode [sample_gps]
           "/data/b.log" (raise_new OSError "Permission denied") []
           (outputparser.Manager.init (sender.init sample_heap)));
    reflexivity.
Defined.


